(** * SpeechFingerprinting: band-energy and landmark fingerprints

    A shallow embedding of [src/SpeechFingerprinting.py] and the properties
    of its two extractors, [extractFBEFingerprinting] and
    [extractLandmarksFingerprinting].

    Conventions of the embedding:
    - a Python call either returns a value or raises: [result];
    - NumPy arrays are lists (vectors) and lists of rows (matrices), indexed
      with NumPy's rules (negative indices count from the end, anything else
      out of range raises [IndexError]);
    - float64 arithmetic is taken through the interface [Scalar], with two
      instances: IEEE binary64 ([float], the arithmetic the program runs on)
      and the real numbers (the arithmetic the formulas are read in);
    - loops are folds over [range] that thread the array being filled. *)

From Stdlib Require String Finite.
From Stdlib Require Import ZArith List Bool Lia Floats QArith Reals Lra.
Import ListNotations.
Import String.StringSyntax.
Delimit Scope string_scope with string.
Open Scope Z_scope.

(** ** Exceptions and results *)

Inductive exn : Set :=
| ParameterError   (* librosa.util.exceptions.ParameterError *)
| IndexError
| ValueError
| TypeError
| OverflowError.

Inductive result (A : Type) : Type :=
| Ok (a : A)
| Raise (e : exn).
Arguments Ok {A} a.
Arguments Raise {A} e.

Definition bind {A B} (c : result A) (k : A -> result B) : result B :=
  match c with
  | Ok a => k a
  | Raise e => Raise e
  end.

Declare Scope result_scope.
Delimit Scope result_scope with result.
Notation "x <- c ;; k" := (bind c (fun x => k))
  (at level 100, c at next level, right associativity) : result_scope.
Open Scope result_scope.

Definition is_ok {A} (c : result A) : bool :=
  match c with Ok _ => true | Raise _ => false end.

(** ** Python [range] and [for] *)

Definition range (lo hi : Z) : list Z :=
  map (fun k => lo + Z.of_nat k) (seq 0 (Z.to_nat (hi - lo))).

(** [for x in xs: s = body x s], stopping at the first exception. *)
Fixpoint for_each {S : Type} (xs : list Z) (body : Z -> S -> result S) (s : S)
  : result S :=
  match xs with
  | [] => Ok s
  | x :: rest => s' <- body x s ;; for_each rest body s'
  end.

(** ** NumPy indexing *)

Definition norm_index (n : nat) (i : Z) : result nat :=
  if (0 <=? i) && (i <? Z.of_nat n) then Ok (Z.to_nat i)
  else if (- Z.of_nat n <=? i) && (i <? 0) then Ok (Z.to_nat (Z.of_nat n + i))
  else Raise IndexError.

Fixpoint update {A} (l : list A) (k : nat) (a : A) : list A :=
  match l, k with
  | [], _ => []
  | _ :: t, O => a :: t
  | h :: t, S k' => h :: update t k' a
  end.

Definition np_get {A} (l : list A) (i : Z) : result A :=
  k <- norm_index (length l) i ;;
  match nth_error l k with
  | Some a => Ok a
  | None => Raise IndexError
  end.

Definition np_set {A} (l : list A) (i : Z) (a : A) : result (list A) :=
  k <- norm_index (length l) i ;; Ok (update l k a).

(** [m[i][j]] and [m[i][j] = a] on a matrix held as a list of rows. *)
Definition get2 {A} (m : list (list A)) (i j : Z) : result A :=
  row <- np_get m i ;; np_get row j.

Definition set2 {A} (m : list (list A)) (i j : Z) (a : A)
  : result (list (list A)) :=
  row <- np_get m i ;;
  row' <- np_set row j a ;;
  np_set m i row'.

(** The entry at a position counted from the start only (no wraparound);
    used to say which cell an index denotes. *)
Definition cell {A} (m : list (list A)) (i j : nat) : option A :=
  match nth_error m i with
  | Some row => nth_error row j
  | None => None
  end.

Definition shape {A} (m : list (list A)) (r c : nat) : Prop :=
  length m = r /\ Forall (fun row => length row = c) m.

(** ** Scalars: the float64 interface *)

Class Scalar (F : Type) : Type := {
  of_int : Z -> F;               (* int -> float conversion *)
  fadd : F -> F -> F;
  fsub : F -> F -> F;
  fmul : F -> F -> F;
  fdiv : F -> F -> F;
  flt : F -> F -> bool;          (* x < y  *)
  fle : F -> F -> bool;          (* x <= y *)
  feq : F -> F -> bool;          (* x == y *)
  to_int : F -> result Z         (* int(x): truncation toward zero *)
}.

(** The decimal literal [n/d], a correctly rounded quotient. *)
Definition lit {F} `{Scalar F} (n d : Z) : F := fdiv (of_int n) (of_int d).

(** IEEE binary64. *)
Definition float_of_int (z : Z) : float :=
  SF2Prim (binary_normalize prec emax z 0 false).

Definition float_to_int (x : float) : result Z :=
  match Prim2SF x with
  | S754_zero _ => Ok 0
  | S754_infinity _ => Raise OverflowError
  | S754_nan => Raise ValueError
  | S754_finite s m e =>
      let v := if 0 <=? e then Z.pos m * 2 ^ e else Z.pos m / 2 ^ (- e) in
      Ok (if s then - v else v)
  end.

#[export] Instance float_scalar : Scalar float := {
  of_int := float_of_int;
  fadd := PrimFloat.add;
  fsub := PrimFloat.sub;
  fmul := PrimFloat.mul;
  fdiv := PrimFloat.div;
  flt := PrimFloat.ltb;
  fle := PrimFloat.leb;
  feq := PrimFloat.eqb;
  to_int := float_to_int
}.

(** The reals. *)
Definition R_to_int (x : R) : result Z :=
  Ok (if Rle_dec 0 x then Int_part x else - Int_part (- x)).

#[export] Instance R_scalar : Scalar R := {
  of_int := IZR;
  fadd := Rplus;
  fsub := Rminus;
  fmul := Rmult;
  fdiv := Rdiv;
  flt := fun x y => if Rlt_dec x y then true else false;
  fle := fun x y => if Rle_dec x y then true else false;
  feq := fun x y => if Req_dec_T x y then true else false;
  to_int := R_to_int
}.

(** ** Bit derivation (lines 74-81) *)

Definition matrix (F : Type) : Type := list (list F).

Definition len {A} (l : list A) : Z := Z.of_nat (length l).

Section BitDerivation.
Context {F : Type} `{Scalar F}.

(** [np.zeros((r, c))]: negative dimensions are refused. *)
Definition np_zeros2 (r c : Z) : result (matrix F) :=
  if (r <? 0) || (c <? 0) then Raise ValueError
  else Ok (repeat (repeat (of_int 0) (Z.to_nat c)) (Z.to_nat r)).

(** The test of line 78 at frame [i] and band [j]:
    [energy[i][j] - energy[i][j+1] - (energy[i-1][j] - energy[i-1][j-1]) > 0]. *)
Definition bit_test (energy : matrix F) (i j : Z) : result bool :=
  a <- get2 energy i j ;;
  b <- get2 energy i (j + 1) ;;
  c <- get2 energy (i - 1) j ;;
  d <- get2 energy (i - 1) (j - 1) ;;
  Ok (flt (of_int 0) (fsub (fsub a b) (fsub c d))).

Definition bit_value (b : bool) : F := if b then of_int 1 else of_int 0.

(** Lines 75-81; [n_frames] is [len(frames)], [energy] is [filter_banks]. *)
Definition bit_derivation (n_frames n_bands : Z) (energy : matrix F)
  : result (matrix F) :=
  fp <- np_zeros2 n_frames (n_bands - 1) ;;
  for_each (range 1 (len energy)) (fun i fp =>
    row0 <- np_get energy 0 ;;
    for_each (range 0 (len row0 - 1)) (fun j fp =>
      t <- bit_test energy i j ;;
      set2 fp i j (bit_value t)) fp) fp.

End BitDerivation.

(** ** Python numbers and the hop length (lines 35 and 114) *)

(** [overlapping] is a Python [int] (its default, 0) or a [float]; the
    arithmetic of line 35 keeps an [int] an [int]. *)
Inductive pynum (F : Type) : Type :=
| PyInt (z : Z)
| PyFloat (x : F).
Arguments PyInt {F} z.
Arguments PyFloat {F} x.

Definition is_positive_int {F} (h : pynum F) : bool :=
  match h with
  | PyInt z => 1 <=? z
  | PyFloat _ => false
  end.

Definition hop_length {F} `{Scalar F} (overlapping : pynum F) (window_length : Z)
  : pynum F :=
  match overlapping with
  | PyInt o => PyInt ((1 - o) * window_length)
  | PyFloat o => PyFloat (fmul (fsub (of_int 1) o) (of_int window_length))
  end.

(** ** Collaborators

    [normalization] and [preEmphasis] come from [utils/basic_functions.py],
    which is not part of the sources at hand; they are parameters of the
    extractors, as are librosa's framing and STFT. *)

Record Preprocessing (F : Type) : Type := {
  normalization : list F -> list F;
  preEmphasis : list F -> F -> list F
}.
Arguments normalization {F} _ _.
Arguments preEmphasis {F} _ _ _.

(** [librosa.util.frame(samples, frame_length, hop_length).T]: row [t] of
    the result is frame [t]. *)
Definition framing (F : Type) : Type :=
  list F -> Z -> pynum F -> result (matrix F).

(** ** The call of [librosa.stft] on line 115

    [librosa.stft(y, n_fft=2048, hop_length=None, win_length=None,
    window='hann', center=True, dtype=None, pad_mode='reflect')] is
    third-party code.  Python binds the arguments of a call before the
    body runs: the positional arguments fill the parameters in order, each
    keyword must name a parameter that is still free, and a parameter
    without default must end up bound; anything else is a [TypeError]. *)

Inductive arg (F : Type) : Type :=
| ASamples (x : list F)
| AFloat (x : F)
| AInt (z : Z)
| ANum (n : pynum F)
| AStr (s : String.string).
Arguments ASamples {F} x.
Arguments AFloat {F} x.
Arguments AInt {F} z.
Arguments ANum {F} n.
Arguments AStr {F} s.

Definition stft_parameters : list String.string :=
  ["y"; "n_fft"; "hop_length"; "win_length"; "window"; "center"; "dtype";
   "pad_mode"]%string.

Definition stft_required : list String.string := ["y"]%string.

(** The positional arguments, and the parameters they leave free. *)
Fixpoint bind_positional {F} (parameters : list String.string) (args : list (arg F))
  : result (list (String.string * arg F) * list String.string) :=
  match args, parameters with
  | [], _ => Ok ([], parameters)
  | a :: args', p :: parameters' =>
      r <- bind_positional parameters' args' ;; Ok ((p, a) :: fst r, snd r)
  | _ :: _, [] => Raise TypeError
  end.

(** The keywords: one that names no free parameter is unexpected, or gives
    a second value to a parameter. *)
Fixpoint bind_keywords {F} (free : list String.string)
  (keywords : list (String.string * arg F))
  : result (list (String.string * arg F)) :=
  match keywords with
  | [] => Ok []
  | (k, a) :: rest =>
      if existsb (String.eqb k) free
      then bound <- bind_keywords
                      (filter (fun p => negb (String.eqb k p)) free) rest ;;
           Ok ((k, a) :: bound)
      else Raise TypeError
  end.

Definition bind_arguments {F} (parameters required : list String.string)
  (args : list (arg F)) (keywords : list (String.string * arg F))
  : result (list (String.string * arg F)) :=
  r <- bind_positional parameters args ;;
  bound <- bind_keywords (snd r) keywords ;;
  let all := fst r ++ bound in
  if forallb (fun q => existsb (fun b => String.eqb q (fst b)) all) required
  then Ok all else Raise TypeError.

(** What [librosa.stft] computes from its bound arguments: rows are
    frequency bins, columns are frames, entries are (re, im). *)
Definition transform (F : Type) : Type :=
  list (String.string * arg F) -> result (list (list (F * F))).

(** NumPy's numeric kernels. *)
Record NumPy (F : Type) : Type := {
  np_arcsinh : F -> F;
  np_sinh : F -> F;
  np_log10 : F -> F;
  np_inf : F;
  c_pow : F -> F -> F;                      (* libm pow behind [**] *)
  np_abs : F * F -> F;                      (* |re + im j| *)
  np_fft : list F -> Z -> list (F * F);     (* n-point DFT of one row *)
  np_fft_length : forall x n, length (np_fft x n) = Z.to_nat n
}.
Arguments np_arcsinh {F} _ _.
Arguments np_sinh {F} _ _.
Arguments np_log10 {F} _ _.
Arguments np_inf {F} _.
Arguments c_pow {F} _ _ _.
Arguments np_abs {F} _ _.
Arguments np_fft {F} _ _ _.
Arguments np_fft_length {F} _ _ _.

(** ** Bark bounds (lines 42-43) *)

Section Bark.
Context {F : Type} `{Scalar F}.
Variable arcsinh : F -> F.

(** Python's [min(a, b)]: [b] when [b < a], otherwise [a]. *)
Definition py_min (a b : F) : F := if flt b a then b else a.

Definition bark (f : F) : F := fmul (of_int 6) (arcsinh (fdiv f (of_int 600))).

(** Line 42. *)
Definition low_bark (low_freq : F) : F := bark low_freq.

(** Line 43: [min(6. * np.arcsinh(high_freq / 600.), sr / 2)]. *)
Definition high_bark (high_freq sr : F) : F :=
  py_min (bark high_freq) (fdiv sr (of_int 2)).

End Bark.

(** ** List helpers *)

Fixpoint map2 {A B C} (f : A -> B -> C) (l1 : list A) (l2 : list B) : list C :=
  match l1, l2 with
  | a :: t1, b :: t2 => f a b :: map2 f t1 t2
  | _, _ => []
  end.

Fixpoint map_result {A B} (f : A -> result B) (l : list A) : result (list B) :=
  match l with
  | [] => Ok []
  | a :: t => b <- f a ;; bs <- map_result f t ;; Ok (b :: bs)
  end.

(** [l[lo:hi]] for [0 <= lo <= hi]. *)
Definition slice {A} (l : list A) (lo hi : Z) : list A :=
  firstn (Z.to_nat (hi - lo)) (skipn (Z.to_nat lo) l).

(** ** Comparing a Python [int] with a float literal

    Python compares an [int] with a [float] by value, exactly.  The literals
    of lines 57-63 are given by the rationals they denote in binary64. *)

Definition lit_m1_3 : Q := (-5854679515581645) # 4503599627370496.  (* -1.3 *)
Definition lit_m0_5 : Q := (-1) # 2.                                (* -0.5 *)
Definition lit_0_5 : Q := 1 # 2.                                    (*  0.5 *)
Definition lit_2_5 : Q := 5 # 2.                                    (*  2.5 *)

Definition int_lt (d : Z) (q : Q) : bool := negb (Qle_bool q (inject_Z d)).
Definition int_le (d : Z) (q : Q) : bool := Qle_bool (inject_Z d) q.
Definition le_int (q : Q) (d : Z) : bool := Qle_bool q (inject_Z d).

(** ** The filterbank (lines 44-66) *)

Section Filterbank.
Context {F : Type} `{Scalar F}.
Variable np : NumPy F.

Definition is_inf (x : F) : bool :=
  feq x (np_inf np) || feq x (fsub (of_int 0) (np_inf np)).

(** [x ** y] on floats: an infinite result of libm's pow is an
    [OverflowError]. *)
Definition py_pow (x y : F) : result F :=
  let r := c_pow np x y in
  if is_inf r then Raise OverflowError else Ok r.

(** [np.linspace(start, stop, num)]. *)
Definition np_linspace (start stop : F) (num : Z) : result (list F) :=
  if num <? 0 then Raise ValueError
  else
    let div := num - 1 in
    let delta := fsub stop start in
    let y := map of_int (range 0 num) in
    let y :=
      if 0 <? div then
        let step := fdiv delta (of_int div) in
        if feq step (of_int 0)
        then map (fun v => fmul (fdiv v (of_int div)) delta) y
        else map (fun v => fmul v step) y
      else map (fun v => fmul v delta) y in
    let y := map (fun v => fadd v start) y in
    Ok (if 1 <? num then update y (Z.to_nat (num - 1)) stop else y).

(** Lines 42-47: the fractional bin of each of the [n_bands + 2] points. *)
Definition bin_points (fft_points n_bands : Z) (low_freq high_freq sr : F)
  : result (list F) :=
  let low := low_bark (np_arcsinh np) low_freq in
  let high := high_bark (np_arcsinh np) high_freq sr in
  bark_freq <- np_linspace low high (n_bands + 2) ;;
  let hz_freq :=
    map (fun b => fmul (of_int 600) (np_sinh np (fdiv b (of_int 6)))) bark_freq in
  Ok (map (fun h => fdiv (fmul (of_int (fft_points / 2 + 1)) h) sr) hz_freq).

(** Lines 56-66: the weight written at bin [k], with [delta = center - k]. *)
Definition filter_weight (delta k : Z) : result F :=
  if int_lt delta lit_m1_3 then Ok (of_int 0)
  else if le_int lit_m1_3 delta && int_le delta lit_m0_5 then
    py_pow (of_int 10) (fmul (lit 25 10) (fadd (of_int k) (lit 5 10)))
  else if le_int lit_m0_5 delta && int_le delta lit_0_5 then Ok (of_int 1)
  else if le_int lit_0_5 delta && int_le delta lit_2_5 then
    py_pow (of_int 10) (fmul (lit (-1) 10) (fsub (of_int k) (lit 5 10)))
  else Ok (of_int 0).

(** Lines 52-66: one band [m]. *)
Definition fbank_band (bin : list F) (m : Z) (fbank : matrix F) : result (matrix F) :=
  bl <- np_get bin (m - 1) ;; low <- to_int bl ;;
  bc <- np_get bin m ;; center <- to_int bc ;;
  bh <- np_get bin (m + 1) ;; high <- to_int bh ;;
  for_each (range low high) (fun k fbank =>
    w <- filter_weight (center - k) k ;;
    set2 fbank (m - 1) k w) fbank.

(** Lines 49-66. *)
Definition build_fbank (fft_points n_bands : Z) (bin : list F) : result (matrix F) :=
  fbank <- np_zeros2 n_bands (fft_points / 2 + 1) ;;
  for_each (range 1 (n_bands + 1)) (fbank_band bin) fbank.

(** ** Band energies (lines 37-39 and 68-72) *)

(** Lines 37-39: [np.fft.fft] refuses fewer than one point. *)
Definition power_spectrum (fft_points : Z) (frames : matrix F) : result (matrix F) :=
  if fft_points <? 1 then Raise ValueError
  else Ok (map (fun fr =>
         map (fun z => let a := np_abs np z in
                       fdiv (fmul a a) (of_int fft_points))
             (firstn (Z.to_nat (fft_points / 2 + 1)) (np_fft np fr fft_points)))
       frames).

(** One entry of [np.dot(power, fbank.T)]; the terms are added left to right. *)
Definition dot (p f : list F) : result F :=
  if Nat.eqb (length p) (length f)
  then Ok (fold_left fadd (map2 fmul p f) (of_int 0))
  else Raise ValueError.

Definition np_dot_T (power fbank : matrix F) : result (matrix F) :=
  map_result (fun p => map_result (dot p) fbank) power.

Definition np_eps : F := fdiv (of_int 1) (of_int (2 ^ 52)).

(** [x.clip(lo, hi)] = minimum(maximum(x, lo), hi). *)
Definition np_clip (x lo hi : F) : F :=
  let y := if flt x lo then lo else x in
  if flt hi y then hi else y.

(** Lines 69-70 on one entry. *)
Definition log_energy (x : F) : F :=
  let x := if feq x (of_int 0) then np_eps else x in
  fmul (of_int 20) (np_clip (np_log10 np x) (lit 1 100000) (np_inf np)).

(** [np.mean(m, axis=0)]: the rows are added in order. *)
Definition np_mean0 (m : matrix F) : list F :=
  match m with
  | [] => []
  | r :: rs =>
      map (fun s => fdiv s (of_int (len m))) (fold_left (map2 fadd) rs r)
  end.

(** Line 71. *)
Definition mean_normalize (m : matrix F) : matrix F :=
  let mu := np_mean0 m in
  map (fun row => map2 (fun x u => fsub x (fadd u (lit 1 100000000))) row mu) m.

Definition band_energy (power fbank : matrix F) : result (matrix F) :=
  filter_banks <- np_dot_T power fbank ;;
  Ok (mean_normalize (map (map log_energy) filter_banks)).

(** ** The band-energy extractor (lines 12-91)

    [display] only draws the result; it does not take part in the value. *)

Variable lib : Preprocessing F.
Variable util_frame : framing F.
Variable stft : transform F.

(** Lines 28-32 and 109-113. *)
Definition preprocess (samples : list F) (sr : F) (normalize : bool) : list F :=
  let samples := if normalize then normalization lib samples else samples in
  preEmphasis lib samples sr.

(** Lines 28-36. *)
Definition enframe (samples : list F) (sr : F) (normalize : bool)
  (overlapping : pynum F) (window_length : Z) : result (matrix F) :=
  let samples := preprocess samples sr normalize in
  util_frame samples window_length (hop_length overlapping window_length).

Definition extractFBEFingerprinting (samples : list F) (sr : F)
  (normalize : bool) (fft_points n_bands : Z) (low_freq high_freq : F)
  (overlapping : pynum F) (window_length : Z) (window_type : String.string)
  (display : bool) : result (matrix F) :=
  frames <- enframe samples sr normalize overlapping window_length ;;
  power <- power_spectrum fft_points frames ;;
  bin <- bin_points fft_points n_bands low_freq high_freq sr ;;
  fbank <- build_fbank fft_points n_bands bin ;;
  energy <- band_energy power fbank ;;
  bit_derivation (len frames) n_bands energy.

(** ** The landmark extractor (lines 94-137) *)

(** [range(0, stop, step)] for [stop >= 0]. *)
Definition range_step (stop step : Z) : result (list Z) :=
  if step =? 0 then Raise ValueError
  else if step <? 0 then Ok []
  else Ok (map (fun k => Z.of_nat k * step)
               (seq 0 (Z.to_nat ((stop + step - 1) / step)))).

Definition is_nan (x : F) : bool := negb (feq x x).

(** NumPy's scan for the maximum: a later element replaces the running
    maximum [mp] only when [not (x <= mp)], and a NaN ends the scan. *)
Fixpoint argmax_scan (mp : F) (best i : nat) (l : list F) : nat :=
  match l with
  | [] => best
  | x :: r =>
      if fle x mp then argmax_scan mp best (S i) r
      else if is_nan x then i
      else argmax_scan x i (S i) r
  end.

Definition np_argmax (l : list F) : result Z :=
  match l with
  | [] => Raise ValueError
  | x :: r => Ok (Z.of_nat (if is_nan x then 0%nat else argmax_scan x 0 1 r))
  end.

(** Line 123: [spectogram[i:i+height, j:j+width]]. *)
Definition tile (spectogram : matrix F) (height width i j : Z) : matrix F :=
  map (fun row => slice row j (j + width)) (slice spectogram i (i + height)).

(** Lines 123-127: one tile with corner [(i, j)]. *)
Definition mark_tile (spectogram : matrix F) (height width i j : Z) (fp : matrix F)
  : result (matrix F) :=
  let sub_matrix := tile spectogram height width i j in
  flat <- np_argmax (concat sub_matrix) ;;
  sub0 <- np_get sub_matrix 0 ;;
  let x := i + flat / len sub0 in
  let y := j + flat mod len sub0 in
  set2 fp x y (of_int 1).

(** Lines 118-127. *)
Definition landmarks (spectogram : matrix F) (height width : Z) : result (matrix F) :=
  let fp := map (map (fun _ => of_int 0)) spectogram in
  rows <- range_step (len spectogram) height ;;
  for_each rows (fun i fp =>
    row0 <- np_get spectogram 0 ;;
    cols <- range_step (len row0) width ;;
    for_each cols (fun j fp => mark_tile spectogram height width i j fp) fp) fp.

(** Line 115: [librosa.stft(samples, sr, n_fft=fft_points,
    win_length=window_length, hop_length=hop_length,
    window_type=window_type)], two positional arguments and four
    keywords. *)
Definition stft_call (samples : list F) (sr : F) (fft_points window_length : Z)
  (hop : pynum F) (window_type : String.string)
  : result (list (list (F * F))) :=
  bound <- bind_arguments stft_parameters stft_required
             [ASamples samples; AFloat sr]
             [("n_fft"%string, AInt fft_points);
              ("win_length"%string, AInt window_length);
              ("hop_length"%string, ANum hop);
              ("window_type"%string, AStr window_type)] ;;
  stft bound.

Definition extractLandmarksFingerprinting (samples : list F) (sr : F)
  (normalize : bool) (height width fft_points : Z) (overlapping : pynum F)
  (window_length : Z) (window_type : String.string) (display : bool)
  : result (matrix F) :=
  let samples := preprocess samples sr normalize in
  let hop := hop_length overlapping window_length in
  spec <- stft_call samples sr fft_points window_length hop window_type ;;
  landmarks (map (map (np_abs np)) spec) height width.

End Filterbank.

(** ** librosa's framing

    [librosa.util.frame] is third-party code.  Its documented contract is:
    [ParameterError] when the input is shorter than [frame_length] or when
    [hop_length < 1]; otherwise [1 + (len(x) - frame_length) // hop_length]
    frames, frame [t] being [x[t*hop : t*hop + frame_length]].  A [float]
    hop below 1 fails while the error message is formatted ([ValueError]),
    a [float] hop of at least 1 cannot be used as a stride ([TypeError]),
    and a negative [frame_length] cannot be a dimension ([ValueError]). *)

Definition librosa_util_frame {F} `{Scalar F} : framing F :=
  fun x frame_length hop =>
    if len x <? frame_length then Raise ParameterError
    else
      match hop with
      | PyInt h =>
          if h <? 1 then Raise ParameterError
          else if frame_length <? 0 then Raise ValueError
          else Ok (map (fun t => slice x (t * h) (t * h + frame_length))
                       (range 0 (1 + (len x - frame_length) / h)))
      | PyFloat h =>
          if flt h (of_int 1) then Raise ValueError else Raise TypeError
      end.

(** ** Reference numerics on binary64

    Software stand-ins for libm and for the DFT, good to about an ulp, so
    that the extractors can be run on examples.  The theorems below hold for
    every [NumPy] and do not depend on them. *)

Module Ref.
Open Scope float_scope.

Definition ln2 : float := 0x1.62e42fefa39efp-1.
Definition two_pi : float := 0x1.921fb54442d18p+2.
Definition sqrt_half : float := 0x1.6a09e667f3bcdp-1.

Definition trunc (x : float) : Z :=
  match float_to_int x with Ok z => z | Raise _ => 0%Z end.

Definition nearest (x : float) : Z :=
  trunc (x + (if x <? 0 then -0x1p-1 else 0x1p-1)).

(** [1/0!, 1/1!, ...], [n] terms. *)
Fixpoint inv_fact (n : nat) (k acc : float) : list float :=
  match n with
  | O => []
  | S n' => acc :: inv_fact n' (k + 1) (acc / (k + 1))
  end.

Definition exp (x : float) : float :=
  let k := nearest (x / ln2) in
  let r := x - float_of_int k * ln2 in
  Z.ldexp (fold_right (fun c acc => c + r * acc) 0 (inv_fact 22 0 1)) k.

Definition ln (x : float) : float :=
  if x <? 0 then nan
  else if x =? 0 then neg_infinity
  else if is_infinity x || is_nan x then x
  else
    let '(m, e) := Z.frexp x in
    let '(m, e) := if m <? sqrt_half then (m * 2, (e - 1)%Z) else (m, e) in
    let t := (m - 1) / (m + 1) in
    let s := fold_right
               (fun n acc => 1 / float_of_int (2 * n + 1) + t * t * acc) 0
               (map Z.of_nat (seq 0 14)) in
    float_of_int e * ln2 + 2 * t * s.

Definition log10 (x : float) : float := ln x / ln 10.
Definition sinh (x : float) : float := (exp x - exp (- x)) / 2.
Definition arcsinh (x : float) : float :=
  if x <? 0 then - ln (PrimFloat.sqrt (x * x + 1) - x)
  else ln (x + PrimFloat.sqrt (x * x + 1)).
Definition pow (x y : float) : float := exp (y * ln x).

Definition reduce (x : float) : float := x - float_of_int (nearest (x / two_pi)) * two_pi.

Definition sin (x : float) : float :=
  let r := reduce x in
  r * fold_right
        (fun n acc => 1 - r * r / float_of_int ((2 * n + 2) * (2 * n + 3)) * acc) 1
        (map Z.of_nat (seq 0 16)).

Definition cos (x : float) : float :=
  let r := reduce x in
  fold_right
    (fun n acc => 1 - r * r / float_of_int ((2 * n + 1) * (2 * n + 2)) * acc) 1
    (map Z.of_nat (seq 0 16)).

(** The [n]-point DFT of [x], zero-padded or cropped to [n] samples. *)
Definition fft (x : list float) (n : Z) : list (float * float) :=
  let xs := firstn (Z.to_nat n) (x ++ repeat 0 (Z.to_nat n)) in
  map (fun k =>
         fold_left
           (fun '(re, im) '(t, v) =>
              let a := two_pi * float_of_int (Z.of_nat (k * t)) / float_of_int n in
              (re + v * cos a, im - v * sin a))
           (combine (seq 0 (Z.to_nat n)) xs) (0, 0))
      (seq 0 (Z.to_nat n)).

Definition abs (z : float * float) : float :=
  PrimFloat.sqrt (fst z * fst z + snd z * snd z).

Definition numpy : NumPy float := {|
  np_arcsinh := arcsinh;
  np_sinh := sinh;
  np_log10 := log10;
  np_inf := infinity;
  c_pow := pow;
  np_abs := abs;
  np_fft := fft;
  np_fft_length := fun x n => eq_trans (length_map _ _) (length_seq _ _)
|}.

(** Modelled from the spec: [normalization] and [preEmphasis] of
    [utils/basic_functions.py], which are not among the sources.  The spec
    gives "amplitude-scale a waveform to a canonical range" and "apply a
    first-order high-pass pre-emphasis filter"; the peak scaling and the
    coefficient 0.9375 are this instance's choices. *)
Definition peak_amplitude (x : list float) : float :=
  fold_left (fun m v => if m <? PrimFloat.abs v then PrimFloat.abs v else m) x 0.

Definition normalize_peak (x : list float) : list float :=
  let p := peak_amplitude x in map (fun v => v / p) x.

Definition pre_emphasis (x : list float) (sr : float) : list float :=
  match x with
  | [] => []
  | x0 :: rest => x0 :: map2 (fun v prev => v - 0x1.ep-1 * prev) rest x
  end.

Definition preprocessing : Preprocessing float := {|
  normalization := normalize_peak;
  preEmphasis := pre_emphasis
|}.

(** A short test signal: 12 samples at 8 Hz. *)
Definition wave : list float :=
  [0; 0x1p-1; 1; 0x1p-1; 0; -0x1p-1; -1; -0x1p-1; 0; 0x1p-2; 0x1p-1; 0x1p-2].

Close Scope float_scope.
End Ref.

(** ** Reading the arrays in statements *)

(** [m[i][j]] at a position counted from the start (0 where there is no
    such cell). *)
Definition at2 {F} `{Scalar F} (m : matrix F) (i j : nat) : F :=
  nth j (nth i m []) (of_int 0).

(** The column that the index [j - 1] denotes in a row of [b] entries. *)
Definition prev_col (b j : nat) : nat :=
  if Nat.eqb j 0 then (b - 1)%nat else (j - 1)%nat.

(** The value of line 78-81 at frame [i] and band [j], the entry
    [E[i-1][j-1]] being read in column [jm]. *)
Definition rule_bit {F} `{Scalar F} (E : matrix F) (i j jm : nat) : F :=
  bit_value
    (flt (of_int 0)
         (fsub (fsub (at2 E i j) (at2 E i (j + 1)))
               (fsub (at2 E (i - 1) j) (at2 E (i - 1) jm)))).

Definition is_bit {F} `{Scalar F} (x : F) : Prop := x = of_int 0 \/ x = of_int 1.


(** The fingerprint that lines 75-81 leave, cell by cell: row 0 keeps the
    zeros of [np.zeros]; in the other rows every column [j] gets the bit
    of the rule, [j - 1] wrapping to the last band at [j = 0]. *)
Definition fp_cell {F} `{Scalar F} (E : matrix F) (b i j : nat) : F :=
  if Nat.eqb i 0 then of_int 0 else rule_bit E i j (prev_col b j).


(** ** Example energy matrices (2 frames, 3 bands, zero column means) *)

Definition energy_a : matrix float :=
  [[1.5; -2; 0.5]; [-1.5; 2; -0.5]]%float.

Definition energy_b : matrix float :=
  [[-1.5; 2; 0.5]; [1.5; -2; -0.5]]%float.


(** ** The filterbank in statements *)

Section FilterbankSpec.
Context {F : Type} `{Scalar F}.
Variable np : NumPy F.

(** Lines 52-54: the boundary bins of band [m]. *)
Definition band_edges (bin : list F) (m : Z) : result (Z * Z * Z) :=
  bl <- np_get bin (m - 1) ;; low <- to_int bl ;;
  bc <- np_get bin m ;; center <- to_int bc ;;
  bh <- np_get bin (m + 1) ;; high <- to_int bh ;;
  Ok (low, center, high).

(** The five regions as the specification words them, with its decimal
    thresholds; the two powers are the program's [10 ** ...]. *)
Inductive five_region (delta k : Z) : result F -> Prop :=
| region_below :
    (inject_Z delta < -13 # 10)%Q ->
    five_region delta k (Ok (of_int 0))
| region_rise :
    (-13 # 10 <= inject_Z delta)%Q -> (inject_Z delta <= -1 # 2)%Q ->
    five_region delta k
      (py_pow np (of_int 10) (fmul (lit 25 10) (fadd (of_int k) (lit 5 10))))
| region_pass :
    (-1 # 2 <= inject_Z delta)%Q -> (inject_Z delta <= 1 # 2)%Q ->
    five_region delta k (Ok (of_int 1))
| region_fall :
    (1 # 2 <= inject_Z delta)%Q -> (inject_Z delta <= 5 # 2)%Q ->
    five_region delta k
      (py_pow np (of_int 10) (fmul (lit (-1) 10) (fsub (of_int k) (lit 5 10))))
| region_above :
    (5 # 2 < inject_Z delta)%Q ->
    five_region delta k (Ok (of_int 0)).

(** The weight that the loops leave in row [m - 1], bin [k]. *)
Definition band_cell (low center high k : Z) (w : F) : Prop :=
  if (low <=? k) && (k <? high)
  then filter_weight np (center - k) k = Ok w
  else w = of_int 0.

(** Band [m] of a bank with [c] bins is well placed: its boundary bins are
    integers [low], [center], [high] with [0 <= low] and [high <= c], and
    no power written in it overflows. *)
Definition band_ok (bin : list F) (c : nat) (m : Z) (e : Z * Z * Z) : Prop :=
  let '(low, center, high) := e in
  band_edges bin m = Ok e /\
  0 <= low /\ high <= Z.of_nat c /\
  forall k, low <= k < high ->
            is_ok (filter_weight np (center - k) k) = true.

End FilterbankSpec.


(** ** Example bins: three bands over the 9 bins of a 16-point FFT *)




(** ** A run on the test signal: 8-point FFT, 3 bands, frames of 4 *)

Definition wave_frames : matrix float :=
  match enframe Ref.preprocessing librosa_util_frame Ref.wave (of_int 8) false
          (PyInt 0) 4 with
  | Ok frames => frames
  | Raise _ => []
  end.

Definition wave_bin : list float :=
  match bin_points Ref.numpy 8 3 (of_int 1) (of_int 3) (of_int 8) with
  | Ok bin => bin
  | Raise _ => []
  end.

Definition wave_edges (m : Z) : Z * Z * Z :=
  if m =? 1 then (0, 0, 1) else if m =? 2 then (0, 1, 1) else (1, 1, 1).


(** ** Landmarks in statements *)

Section LandmarkSpec.
Context {F : Type} `{Scalar F}.

(** The comparisons behave as an order on the entries: no entry is a NaN,
    any two entries are comparable, and [<=] is transitive on them.  It
    holds of any list of reals and of any list of floats without NaN. *)
Definition well_ordered (l : list F) : bool :=
  forallb (fun x => feq x x) l &&
  forallb (fun x => forallb (fun y => fle x y || fle y x) l) l &&
  forallb (fun x => forallb (fun y => forallb (fun z =>
    implb (fle x y && fle y z) (fle x z)) l) l) l.

Definition ordered_on (l : list F) : Prop :=
  (forall x, In x l -> feq x x = true) /\
  (forall x y, In x l -> In y l -> fle x y = true \/ fle y x = true) /\
  (forall x y z, In x l -> In y l -> In z l ->
                 fle x y = true -> fle y z = true -> fle x z = true).

(** The index NumPy's scan returns on a non-empty list. *)
Definition argmax_nat (l : list F) : nat :=
  match l with
  | [] => 0%nat
  | x :: r => if is_nan x then 0%nat else argmax_scan x 0 1 r
  end.

(** The cell that lines 124-127 mark in the tile with corner [(i, j)]. *)
Definition peak (S : matrix F) (height width : Z) (i j : nat) : nat * nat :=
  let sub := tile S height width (Z.of_nat i) (Z.of_nat j) in
  let k := argmax_nat (concat sub) in
  let nc := length (hd [] sub) in
  ((i + k / nc)%nat, (j + k mod nc)%nat).

(** Cell [(x, y)] lies in the tile with corner [(i, j)]. *)
Definition in_tile (r c h w i j x y : nat) : Prop :=
  (i <= x < Nat.min (i + h) r)%nat /\ (j <= y < Nat.min (j + w) c)%nat.

(** [(x', y')] comes before [(x, y)] in row-major order. *)
Definition before (x' y' x y : nat) : Prop :=
  (x' < x)%nat \/ (x' = x /\ y' < y)%nat.

(** [(px, py)] is the maximum of the tile, the first one in row-major
    order: nothing in the tile is above it and everything before it is
    strictly below. *)
Definition first_max (S : matrix F) (r c h w i j px py : nat) : Prop :=
  in_tile r c h w i j px py /\
  (forall x y, in_tile r c h w i j x y ->
               fle (at2 S x y) (at2 S px py) = true) /\
  (forall x y, in_tile r c h w i j x y -> before x y px py ->
               fle (at2 S px py) (at2 S x y) = false).

End LandmarkSpec.


(** The number of tiles along an axis of [n] cells cut in steps of [h]. *)
Definition tiles (n h : nat) : nat :=
  Z.to_nat ((Z.of_nat n + Z.of_nat h - 1) / Z.of_nat h).

(** Cell [(x, y)] is the one marked in its own tile. *)
Definition is_peak {F} `{Scalar F} (S : matrix F) (h w x y : nat) : bool :=
  let p := peak S (Z.of_nat h) (Z.of_nat w) (x / h * h) (y / w * w) in
  Nat.eqb x (fst p) && Nat.eqb y (snd p).


(** ** Example magnitudes: 3 bins by 5 frames, with a tie in the first tile *)

Definition magnitudes_a : matrix float :=
  [[1; 3; 3; 0; 2]; [3; 1; 0; 0; 2]; [0; 0; 5; 5; 1]]%float.


(** The cells marked over the whole grid, one per tile. *)
Definition marked {F} `{Scalar F} (S : matrix F) (r c h w : nat)
  : list (nat * nat) :=
  map (fun ab => peak S (Z.of_nat h) (Z.of_nat w) (fst ab * h) (snd ab * w))
      (list_prod (seq 0 (tiles r h)) (seq 0 (tiles c w))).

Definition is_marked (l : list (nat * nat)) (x y : nat) : bool :=
  existsb (fun p => Nat.eqb x (fst p) && Nat.eqb y (snd p)) l.


(** A NaN entry compares false with every entry, as IEEE comparisons do. *)
Definition nan_unordered {F} `{Scalar F} (l : list F) : bool :=
  forallb (fun x => forallb (fun y => implb (is_nan x) (negb (fle x y))) l) l.

(** Magnitudes with NaN entries: in the first 2 by 2 tile the largest
    number is 9, the first NaN is at (0, 1). *)
Definition magnitudes_nan : matrix float :=
  [[9; nan; 3]; [nan; 1; 7]]%float.






(** [g] keeps the comparisons between the entries of [l], and which of them
    are NaN. *)
Definition same_order {F} `{Scalar F} (g : F -> F) (l : list F) : bool :=
  forallb (fun x => Bool.eqb (feq (g x) (g x)) (feq x x)) l &&
  forallb (fun x => forallb (fun y => Bool.eqb (fle (g x) (g y)) (fle x y)) l) l.


(** The number of set cells of an [r] by [c] matrix: the positions whose
    cell compares equal to 1. *)
Definition is_set {F} `{Scalar F} (fp : matrix F) (p : nat * nat) : bool :=
  match cell fp (fst p) (snd p) with
  | Some v => feq v (of_int 1)
  | None => false
  end.

Definition count_set {F} `{Scalar F} (fp : matrix F) (r c : nat) : nat :=
  length (filter (is_set fp) (list_prod (seq 0 r) (seq 0 c))).


(** Position [p] is position [q]. *)
Definition at_position (q p : nat * nat) : bool :=
  Nat.eqb (fst p) (fst q) && Nat.eqb (snd p) (snd q).

(** * Properties *)

(** ** Ranges, loops and indexing *)

Lemma range_nil lo hi : hi <= lo -> range lo hi = [].
Proof.
  intros Hle. unfold range.
  replace (Z.to_nat (hi - lo)) with 0%nat by lia. reflexivity.
Qed.

Lemma range_cons lo hi : lo < hi -> range lo hi = lo :: range (lo + 1) hi.
Proof.
  intros Hlt. unfold range.
  replace (Z.to_nat (hi - lo)) with (S (Z.to_nat (hi - (lo + 1)))) by lia.
  cbn [seq map]. f_equal; [lia|].
  rewrite <- seq_shift, map_map. apply map_ext. intros k. lia.
Qed.

Lemma range_length lo hi : length (range lo hi) = Z.to_nat (hi - lo).
Proof. unfold range. now rewrite length_map, length_seq. Qed.

Lemma range_In lo hi x : In x (range lo hi) <-> lo <= x < hi.
Proof.
  unfold range. rewrite in_map_iff. split.
  - intros (k & <- & Hk). apply in_seq in Hk. lia.
  - intros Hx. exists (Z.to_nat (x - lo)). split; [lia|]. apply in_seq. lia.
Qed.

(** The loop rule: an invariant [P x s] carried from [lo] to [hi]. *)
Lemma for_each_range {S : Type} (P : Z -> S -> Prop) body :
  forall (n : nat) lo hi s,
    Z.to_nat (hi - lo) = n ->
    lo <= hi ->
    P lo s ->
    (forall x s, lo <= x < hi -> P x s ->
                 exists s', body x s = Ok s' /\ P (x + 1) s') ->
    exists s', for_each (range lo hi) body s = Ok s' /\ P hi s'.
Proof.
  induction n as [|n IH]; intros lo hi s Hn Hle HP Hstep.
  - rewrite range_nil by lia. exists s. split; [reflexivity|].
    now replace hi with lo by lia.
  - rewrite range_cons by lia. cbn [for_each].
    destruct (Hstep lo s ltac:(lia) HP) as (s1 & -> & HP1). cbn [bind].
    apply IH; try lia; auto.
    intros x s2 Hx. apply Hstep. lia.
Qed.

Lemma norm_index_nonneg n i :
  0 <= i < Z.of_nat n -> norm_index n i = Ok (Z.to_nat i).
Proof.
  intros Hi. unfold norm_index.
  destruct (Z.leb_spec 0 i), (Z.ltb_spec i (Z.of_nat n)); try lia. reflexivity.
Qed.

Lemma norm_index_neg n i :
  - Z.of_nat n <= i < 0 -> norm_index n i = Ok (Z.to_nat (Z.of_nat n + i)).
Proof.
  intros Hi. unfold norm_index.
  destruct (Z.leb_spec 0 i); try lia. cbn [andb].
  destruct (Z.leb_spec (- Z.of_nat n) i), (Z.ltb_spec i 0); try lia. reflexivity.
Qed.

Lemma norm_index_out n i :
  Z.of_nat n <= i \/ i < - Z.of_nat n -> norm_index n i = Raise IndexError.
Proof.
  intros Hi. unfold norm_index.
  destruct (Z.leb_spec 0 i), (Z.ltb_spec i (Z.of_nat n)),
    (Z.leb_spec (- Z.of_nat n) i), (Z.ltb_spec i 0); try lia; reflexivity.
Qed.

Lemma norm_index_lt n i k : norm_index n i = Ok k -> (k < n)%nat.
Proof.
  unfold norm_index.
  destruct (Z.leb_spec 0 i), (Z.ltb_spec i (Z.of_nat n)),
    (Z.leb_spec (- Z.of_nat n) i), (Z.ltb_spec i 0);
    cbn [andb]; intros Heq; inversion Heq; lia.
Qed.

Lemma update_length {A} (l : list A) k a : length (update l k a) = length l.
Proof.
  revert k; induction l as [|h t IH]; intros [|k]; cbn; auto.
Qed.

Lemma nth_error_update_eq {A} (l : list A) k a :
  (k < length l)%nat -> nth_error (update l k a) k = Some a.
Proof.
  revert k; induction l as [|h t IH]; intros [|k] Hk; cbn in *; try lia; auto.
  apply IH. lia.
Qed.

Lemma nth_error_update_neq {A} (l : list A) k k' a :
  k <> k' -> nth_error (update l k a) k' = nth_error l k'.
Proof.
  revert k k'; induction l as [|h t IH]; intros [|k] [|k'] Hk; cbn; auto.
  congruence.
Qed.

Lemma update_Forall {A} (P : A -> Prop) l k a :
  Forall P l -> P a -> Forall P (update l k a).
Proof.
  intros Hl Ha. revert k. induction Hl as [|h t Hh Ht IH]; intros [|k]; cbn; auto.
Qed.

Lemma np_get_nat {A} (l : list A) (k : nat) a :
  nth_error l k = Some a -> np_get l (Z.of_nat k) = Ok a.
Proof.
  intros Hk. assert (k < length l)%nat by (apply nth_error_Some; congruence).
  unfold np_get. rewrite norm_index_nonneg by lia. cbn [bind].
  now rewrite Nat2Z.id, Hk.
Qed.

Lemma np_get_wrap {A} (l : list A) (k : nat) a :
  nth_error l k = Some a -> np_get l (Z.of_nat k - len l) = Ok a.
Proof.
  intros Hk. assert (k < length l)%nat by (apply nth_error_Some; congruence).
  unfold np_get, len. rewrite norm_index_neg by lia. cbn [bind].
  replace (Z.to_nat (Z.of_nat (length l) + (Z.of_nat k - Z.of_nat (length l))))
    with k by lia.
  now rewrite Hk.
Qed.

Lemma np_get_out {A} (l : list A) i :
  len l <= i \/ i < - len l -> np_get l i = Raise IndexError.
Proof. intros Hi. unfold np_get. now rewrite norm_index_out. Qed.

Lemma np_set_nat {A} (l : list A) (k : nat) a :
  (k < length l)%nat -> np_set l (Z.of_nat k) a = Ok (update l k a).
Proof.
  intros Hk. unfold np_set. rewrite norm_index_nonneg by lia. cbn [bind].
  now rewrite Nat2Z.id.
Qed.

Lemma shape_row {A} (m : list (list A)) r c i :
  shape m r c -> (i < r)%nat -> exists row, nth_error m i = Some row /\ length row = c.
Proof.
  intros [Hr Hc] Hi. destruct (nth_error m i) as [row|] eqn:E.
  - exists row. split; auto. rewrite Forall_forall in Hc.
    apply Hc. eapply nth_error_In; eauto.
  - apply nth_error_None in E. lia.
Qed.

Lemma shape_cell {A} (m : list (list A)) r c i j :
  shape m r c -> (i < r)%nat -> (j < c)%nat -> exists a, cell m i j = Some a.
Proof.
  intros Hs Hi Hj. destruct (shape_row m r c i Hs Hi) as (row & Hrow & Hlen).
  unfold cell. rewrite Hrow.
  destruct (nth_error row j) eqn:E; eauto.
  apply nth_error_None in E. lia.
Qed.

Lemma get2_nat {A} (m : list (list A)) (i j : nat) a :
  cell m i j = Some a -> get2 m (Z.of_nat i) (Z.of_nat j) = Ok a.
Proof.
  unfold cell, get2. destruct (nth_error m i) as [row|] eqn:E; [|discriminate].
  intros Hj. rewrite (np_get_nat _ _ _ E). cbn [bind]. now apply np_get_nat.
Qed.

(** Writing one cell of an [r] by [c] matrix: the cell takes the value, the
    others and the shape stay. *)
Lemma set2_nat {A} (m : list (list A)) r c (i j : nat) a :
  shape m r c -> (i < r)%nat -> (j < c)%nat ->
  exists m', set2 m (Z.of_nat i) (Z.of_nat j) a = Ok m' /\
             shape m' r c /\
             cell m' i j = Some a /\
             forall i' j', (i', j') <> (i, j) -> cell m' i' j' = cell m i' j'.
Proof.
  intros Hs Hi Hj. destruct (shape_row m r c i Hs Hi) as (row & Hrow & Hlen).
  destruct Hs as [Hr Hc].
  exists (update m i (update row j a)). unfold set2.
  rewrite (np_get_nat _ _ _ Hrow). cbn [bind].
  rewrite np_set_nat by lia. cbn [bind]. rewrite np_set_nat by lia.
  split; [reflexivity|]. split; [|split].
  - split; [now rewrite update_length|].
    apply update_Forall; auto. now rewrite update_length.
  - unfold cell. rewrite nth_error_update_eq by lia.
    apply nth_error_update_eq. lia.
  - intros i' j' Hne. unfold cell.
    destruct (Nat.eq_dec i i') as [<-|Hii].
    + rewrite nth_error_update_eq by lia. rewrite Hrow.
      apply nth_error_update_neq. congruence.
    + now rewrite nth_error_update_neq.
Qed.

(** ** Bit derivation *)

Section BitDerivationFacts.
Context {F : Type} `{Scalar F}.

Lemma cell_at2 (m : matrix F) i j a : cell m i j = Some a -> at2 m i j = a.
Proof.
  unfold cell, at2. destruct (nth_error m i) as [row|] eqn:E; [|discriminate].
  intros Hj. rewrite (nth_error_nth _ _ _ E). now apply nth_error_nth.
Qed.

Lemma get2_at2 (m : matrix F) r c (i j : nat) :
  shape m r c -> (i < r)%nat -> (j < c)%nat ->
  get2 m (Z.of_nat i) (Z.of_nat j) = Ok (at2 m i j).
Proof.
  intros Hs Hi Hj. destruct (shape_cell m r c i j Hs Hi Hj) as (a & Ha).
  rewrite (cell_at2 _ _ _ _ Ha). now apply get2_nat.
Qed.

(** [m[i][-1]] is the last entry of row [i]. *)
Lemma get2_last (m : matrix F) r c (i : nat) :
  shape m r c -> (i < r)%nat -> (0 < c)%nat ->
  get2 m (Z.of_nat i) (-1) = Ok (at2 m i (c - 1)).
Proof.
  intros Hs Hi Hc. destruct (shape_row m r c i Hs Hi) as (row & Hrow & Hlen).
  unfold get2. rewrite (np_get_nat _ _ _ Hrow). cbn [bind].
  destruct (nth_error row (c - 1)) as [a|] eqn:E.
  - replace (-1) with (Z.of_nat (c - 1) - len row) by (unfold len; lia).
    rewrite (np_get_wrap _ _ _ E). f_equal. symmetry. apply cell_at2.
    unfold cell. now rewrite Hrow.
  - apply nth_error_None in E. lia.
Qed.

Lemma bit_test_ok (E : matrix F) n b (i j : nat) :
  shape E n b -> (1 <= i < n)%nat -> (j < b - 1)%nat ->
  bit_test E (Z.of_nat i) (Z.of_nat j) =
  Ok (flt (of_int 0)
          (fsub (fsub (at2 E i j) (at2 E i (j + 1)))
                (fsub (at2 E (i - 1) j) (at2 E (i - 1) (prev_col b j))))).
Proof.
  intros Hs Hi Hj. unfold bit_test.
  rewrite (get2_at2 E n b) by (auto; lia). cbn [bind].
  replace (Z.of_nat j + 1) with (Z.of_nat (j + 1)) by lia.
  rewrite (get2_at2 E n b) by (auto; lia). cbn [bind].
  replace (Z.of_nat i - 1) with (Z.of_nat (i - 1)) by lia.
  rewrite (get2_at2 E n b) by (auto; lia). cbn [bind].
  unfold prev_col. destruct (Nat.eqb_spec j 0) as [->|Hj0].
  - change (Z.of_nat 0 - 1) with (-1).
    rewrite (get2_last E n b) by (auto; lia). reflexivity.
  - replace (Z.of_nat j - 1) with (Z.of_nat (j - 1)) by lia.
    rewrite (get2_at2 E n b) by (auto; lia). reflexivity.
Qed.

Lemma zeros_shape (r c : nat) :
  shape (repeat (repeat (of_int 0 : F) c) r) r c.
Proof.
  split; [apply repeat_length|].
  apply Forall_forall. intros row Hrow. apply repeat_spec in Hrow. subst.
  apply repeat_length.
Qed.

Lemma zeros_cell (r c i j : nat) :
  (i < r)%nat -> (j < c)%nat ->
  cell (repeat (repeat (of_int 0 : F) c) r) i j = Some (of_int 0).
Proof.
  intros Hi Hj. unfold cell. rewrite nth_error_repeat by lia.
  now rewrite nth_error_repeat by lia.
Qed.

Lemma bit_derivation_cells (E : matrix F) (n b : nat) :
  shape E n b -> (1 <= b)%nat ->
  exists fp,
    bit_derivation (Z.of_nat n) (Z.of_nat b) E = Ok fp /\
    shape fp n (b - 1) /\
    forall i j, (i < n)%nat -> (j < b - 1)%nat ->
                cell fp i j = Some (fp_cell E b i j).
Proof.
  intros Hs Hb. unfold bit_derivation, np_zeros2.
  destruct (Z.ltb_spec (Z.of_nat n) 0); [lia|].
  destruct (Z.ltb_spec (Z.of_nat b - 1) 0); [lia|]. cbn [orb bind].
  replace (Z.to_nat (Z.of_nat b - 1)) with (b - 1)%nat by lia.
  rewrite Nat2Z.id.
  destruct (Nat.eq_dec n 0) as [->|Hn0].
  { destruct Hs as [Hlen _]. unfold len. rewrite Hlen. cbn.
    eexists. split; [reflexivity|].
    split; [apply (zeros_shape 0 (b - 1))|]. intros; lia. }
  set (P := fun (x : Z) (fp : matrix F) =>
    shape fp n (b - 1) /\
    forall i j, (i < n)%nat -> (j < b - 1)%nat ->
      cell fp i j = Some (if (Z.of_nat i <? x) then fp_cell E b i j else of_int 0)).
  assert (Hlen : len E = Z.of_nat n) by (unfold len; destruct Hs; lia).
  destruct (for_each_range P
    (fun i fp => row0 <- np_get E 0 ;;
       for_each (range 0 (len row0 - 1)) (fun j fp =>
         t <- bit_test E i j ;; set2 fp i j (bit_value t)) fp)
    (Z.to_nat (len E - 1)) 1 (len E)
    (repeat (repeat (of_int 0) (b - 1)%nat) n) eq_refl ltac:(lia))
    as (fp & Hrun & Hshape & Hcells).
  - split; [apply zeros_shape|]. intros i j Hi Hj.
    rewrite zeros_cell by auto. unfold fp_cell.
    destruct (Z.ltb_spec (Z.of_nat i) 1); [|reflexivity].
    now replace i with 0%nat by lia.
  - intros x fp Hx [Hshape Hcells].
    assert (Hxi : exists xi, x = Z.of_nat xi) by (exists (Z.to_nat x); lia).
    destruct Hxi as [xi ->].
    destruct (shape_row E n b 0 Hs ltac:(lia)) as (row0 & Hrow0 & Hlen0).
    pose proof (np_get_nat E 0 row0 Hrow0) as Hget0.
    change (Z.of_nat 0) with 0 in Hget0. rewrite Hget0. cbn [bind].
    set (Q := fun (y : Z) (fp : matrix F) =>
      shape fp n (b - 1) /\
      forall i j, (i < n)%nat -> (j < b - 1)%nat ->
        cell fp i j =
        Some (if Z.of_nat i <? Z.of_nat xi then fp_cell E b i j
              else if (Z.of_nat i =? Z.of_nat xi) && (Z.of_nat j <? y)
                   then fp_cell E b i j else of_int 0)).
    destruct (for_each_range Q
      (fun j fp => t <- bit_test E (Z.of_nat xi) j ;;
                   set2 fp (Z.of_nat xi) j (bit_value t))
      (Z.to_nat (len row0 - 1)) 0 (len row0 - 1) fp
      ltac:(f_equal; lia) ltac:(unfold len; lia))
      as (fp' & Hrun' & Hshape' & Hcells').
    + split; [exact Hshape|]. intros i j Hi Hj. rewrite (Hcells i j Hi Hj).
      destruct (Z.ltb_spec (Z.of_nat i) (Z.of_nat xi)); [reflexivity|].
      destruct (Z.ltb_spec (Z.of_nat j) 0); [lia|].
      now rewrite andb_false_r.
    + intros y fp1 Hy [Hshape1 Hcells1]. unfold len in Hy.
      assert (Hyj : exists yj, y = Z.of_nat yj) by (exists (Z.to_nat y); lia).
      destruct Hyj as [yj ->].
      rewrite (bit_test_ok E n b) by (auto; lia). cbn [bind].
      destruct (set2_nat fp1 n (b - 1) xi yj
                  (bit_value (flt (of_int 0)
                     (fsub (fsub (at2 E xi yj) (at2 E xi (yj + 1)))
                           (fsub (at2 E (xi - 1) yj)
                                 (at2 E (xi - 1) (prev_col b yj))))))
                  Hshape1 ltac:(lia) ltac:(lia))
        as (fp2 & Hset & Hshape2 & Hnew & Hold).
      exists fp2. split; [exact Hset|]. split; [exact Hshape2|].
      intros i j Hi Hj.
      destruct (Nat.eq_dec i xi) as [->|Hix].
      * rewrite Z.ltb_irrefl, Z.eqb_refl. cbn [andb].
        destruct (Nat.eq_dec j yj) as [->|Hjy].
        -- rewrite Hnew.
           destruct (Z.ltb_spec (Z.of_nat yj) (Z.of_nat yj + 1)); [|lia].
           unfold fp_cell, rule_bit.
           destruct (Nat.eqb_spec xi 0); [lia|]. reflexivity.
        -- rewrite Hold by congruence. rewrite (Hcells1 _ _ Hi Hj).
           rewrite Z.ltb_irrefl, Z.eqb_refl. cbn [andb].
           destruct (Z.ltb_spec (Z.of_nat j) (Z.of_nat yj)),
             (Z.ltb_spec (Z.of_nat j) (Z.of_nat yj + 1)); try lia; reflexivity.
      * rewrite Hold by congruence. rewrite (Hcells1 _ _ Hi Hj).
        destruct (Z.ltb_spec (Z.of_nat i) (Z.of_nat xi)); [reflexivity|].
        destruct (Z.eqb_spec (Z.of_nat i) (Z.of_nat xi)); [lia|]. reflexivity.
    + exists fp'. split; [exact Hrun'|]. split; [exact Hshape'|].
      intros i j Hi Hj. rewrite (Hcells' i j Hi Hj). unfold len.
      destruct (Z.ltb_spec (Z.of_nat i) (Z.of_nat xi)),
        (Z.ltb_spec (Z.of_nat i) (Z.of_nat xi + 1)),
        (Z.eqb_spec (Z.of_nat i) (Z.of_nat xi)); try lia; cbn [andb];
        try reflexivity.
      destruct (Z.ltb_spec (Z.of_nat j) (Z.of_nat (length row0) - 1)); [|lia].
      reflexivity.
  - exists fp. split; [exact Hrun|]. split; [exact Hshape|].
    intros i j Hi Hj. rewrite (Hcells i j Hi Hj).
    destruct (Z.ltb_spec (Z.of_nat i) (len E)); [reflexivity|lia].
Qed.

End BitDerivationFacts.

Lemma float_one_neq_zero : (of_int 1 : float) <> of_int 0.
Proof.
  intros Heq. apply (f_equal (fun x => PrimFloat.eqb x 1)) in Heq.
  vm_compute in Heq. discriminate.
Qed.

Section BitDerivationClaims.
Context {F : Type} `{Scalar F}.

(** C1 (amended): for every frame [1 <= i < n_frames] and every band
    [0 <= j < n_bands - 1], that is in every column of the fingerprint, the
    bit at [i][j] is 1 exactly when
    [(E[i][j] - E[i][j+1]) - (E[i-1][j] - E[i-1][j-1]) > 0] and 0 otherwise,
    where at [j = 0] the index [j - 1] denotes the last band. *)
Theorem bit_derivation_rule (E : matrix F) (n b i j : nat) :
  shape E n b -> (1 <= i < n)%nat -> (j < b - 1)%nat ->
  exists fp,
    bit_derivation (Z.of_nat n) (Z.of_nat b) E = Ok fp /\
    cell fp i j = Some (rule_bit E i j (prev_col b j)).
Proof.
  intros Hs Hi Hj.
  destruct (bit_derivation_cells E n b Hs ltac:(lia)) as (fp & Hrun & _ & Hcells).
  exists fp. split; [exact Hrun|].
  rewrite (Hcells i j) by lia. unfold fp_cell.
  destruct (Nat.eqb_spec i 0); [lia|reflexivity].
Qed.

(** C2 (amended): row 0 of the band-energy fingerprint is all zeros. *)
Theorem bit_derivation_row0 (E : matrix F) (n b j : nat) :
  shape E n b -> (0 < n)%nat -> (j < b - 1)%nat ->
  exists fp,
    bit_derivation (Z.of_nat n) (Z.of_nat b) E = Ok fp /\
    cell fp 0 j = Some (of_int 0).
Proof.
  intros Hs Hn Hj.
  destruct (bit_derivation_cells E n b Hs ltac:(lia)) as (fp & Hrun & _ & Hcells).
  exists fp. split; [exact Hrun|]. now rewrite (Hcells 0%nat j) by lia.
Qed.

(** C10: for every frame [i >= 1] the bit in column 0 is computed with the
    wrapped index: it is 1 exactly when
    [(E[i][0] - E[i][1]) - (E[i-1][0] - E[i-1][n_bands - 1]) > 0]. *)
Theorem bit_derivation_column0_wraps (E : matrix F) (n b i : nat) :
  shape E n b -> (2 <= b)%nat -> (1 <= i < n)%nat ->
  exists fp,
    bit_derivation (Z.of_nat n) (Z.of_nat b) E = Ok fp /\
    cell fp i 0 =
    Some (bit_value
            (flt (of_int 0)
                 (fsub (fsub (at2 E i 0) (at2 E i 1))
                       (fsub (at2 E (i - 1) 0) (at2 E (i - 1) (b - 1)))))).
Proof.
  intros Hs Hb Hi.
  destruct (bit_derivation_cells E n b Hs ltac:(lia)) as (fp & Hrun & _ & Hcells).
  exists fp. split; [exact Hrun|].
  rewrite (Hcells i 0%nat) by lia. unfold fp_cell, rule_bit, prev_col.
  destruct (Nat.eqb_spec i 0); [lia|reflexivity].
Qed.

End BitDerivationClaims.

Lemma energy_a_shape : shape energy_a 2 3.
Proof. split; [reflexivity|]. repeat constructor. Qed.

Lemma energy_b_shape : shape energy_b 2 3.
Proof. split; [reflexivity|]. repeat constructor. Qed.

Lemma bit_derivation_rule_witness :
  exists fp,
    bit_derivation 2 3 energy_a = Ok fp /\
    cell fp 1 1 = Some (rule_bit energy_a 1 1 (prev_col 3 1)).
Proof.
  apply (bit_derivation_rule energy_a 2 3 1 1); [apply energy_a_shape|lia|lia].
Defined.

Lemma bit_derivation_row0_witness :
  exists fp,
    bit_derivation 2 3 energy_b = Ok fp /\ cell fp 0 0 = Some (of_int 0).
Proof.
  apply (bit_derivation_row0 energy_b 2 3 0); [apply energy_b_shape|lia|lia].
Defined.

Lemma bit_derivation_column0_wraps_witness :
  exists fp,
    bit_derivation 2 3 energy_b = Ok fp /\
    cell fp 1 0 =
    Some (bit_value
            (flt (of_int 0)
                 (fsub (fsub (at2 energy_b 1 0) (at2 energy_b 1 1))
                       (fsub (at2 energy_b 0 0) (at2 energy_b 0 2))))).
Proof.
  apply (bit_derivation_column0_wraps energy_b 2 3 1);
    [apply energy_b_shape|lia|lia].
Defined.

(** C1, as stated, fails: with 3 bands the claim leaves column 1
    ([= n_bands - 2], outside [[0, n_bands - 2)]) unset in rows [i >= 1];
    the code sets it, here to 1. *)
Lemma bit_derivation_sets_last_column :
  exists fp,
    bit_derivation 2 3 energy_a = Ok fp /\
    cell fp 1 1 = Some (of_int 1) /\
    (of_int 1 : float) <> of_int 0 /\
    ~ (0 <= 1 < 3 - 2).
Proof.
  eexists. split; [vm_compute; reflexivity|].
  split; [vm_compute; reflexivity|].
  split; [apply float_one_neq_zero|lia].
Qed.

(** C2, as stated, fails: column 0 is not left at zero; here frame 1 has a
    1 there. *)
Lemma bit_derivation_column0_not_zero :
  exists fp,
    bit_derivation 2 3 energy_b = Ok fp /\
    cell fp 1 0 = Some (of_int 1) /\
    (of_int 1 : float) <> of_int 0.
Proof.
  eexists. split; [vm_compute; reflexivity|].
  split; [vm_compute; reflexivity|apply float_one_neq_zero].
Qed.

(** ** The filterbank *)

Lemma for_each_range_max {S : Type} (P : Z -> S -> Prop) body lo hi s :
  P lo s ->
  (forall x s, lo <= x < hi -> P x s ->
               exists s', body x s = Ok s' /\ P (x + 1) s') ->
  exists s', for_each (range lo hi) body s = Ok s' /\ P (Z.max lo hi) s'.
Proof.
  intros HP Hstep. destruct (Z.le_gt_cases lo hi) as [Hle|Hgt].
  - rewrite Z.max_r by lia.
    now apply (for_each_range P body (Z.to_nat (hi - lo))).
  - rewrite range_nil by lia. rewrite Z.max_l by lia. now exists s.
Qed.

Section FilterbankFacts.
Context {F : Type} `{Scalar F}.
Variable np : NumPy F.

(** The thresholds only ever meet an integer [delta]: the chain of line
    57-66 by cases on it. *)
Lemma filter_weight_cases delta k :
  filter_weight np delta k =
  if delta <=? -2 then Ok (of_int 0)
  else if delta =? -1 then
    py_pow np (of_int 10) (fmul (lit 25 10) (fadd (of_int k) (lit 5 10)))
  else if delta =? 0 then Ok (of_int 1)
  else if delta <=? 2 then
    py_pow np (of_int 10) (fmul (lit (-1) 10) (fsub (of_int k) (lit 5 10)))
  else Ok (of_int 0).
Proof.
  unfold filter_weight, int_lt, int_le, le_int, Qle_bool,
    lit_m1_3, lit_m0_5, lit_0_5, lit_2_5.
  cbn [Qnum Qden inject_Z].
  repeat match goal with
         | |- context [Z.leb ?a ?b] => destruct (Z.leb_spec a b)
         | |- context [Z.eqb ?a ?b] => destruct (Z.eqb_spec a b)
         end; cbn [negb andb]; try reflexivity; lia.
Qed.


(** For an integer [delta] the regions do not overlap: the rule gives one
    weight, the program's. *)
Lemma five_region_unique delta k w :
  five_region np delta k w -> w = filter_weight np delta k.
Proof.
  rewrite filter_weight_cases.
  intros Hw. inversion Hw; subst;
    repeat match goal with
           | Hq : Qlt _ _ |- _ => unfold Qlt in Hq; cbn in Hq
           | Hq : Qle _ _ |- _ => unfold Qle in Hq; cbn in Hq
           end;
    repeat match goal with
           | |- context [Z.leb ?a ?b] => destruct (Z.leb_spec a b)
           | |- context [Z.eqb ?a ?b] => destruct (Z.eqb_spec a b)
           end; try reflexivity; lia.
Qed.

Lemma fbank_band_edges bin m (fbank : matrix F) :
  fbank_band np bin m fbank =
  (e <- band_edges bin m ;;
   let '(low, center, high) := e in
   for_each (range low high) (fun k fbank =>
     w <- filter_weight np (center - k) k ;;
     set2 fbank (m - 1) k w) fbank).
Proof.
  unfold fbank_band, band_edges.
  destruct (np_get bin (m - 1)) as [bl|]; cbn [bind]; [|reflexivity].
  destruct (to_int bl) as [low|]; cbn [bind]; [|reflexivity].
  destruct (np_get bin m) as [bc|]; cbn [bind]; [|reflexivity].
  destruct (to_int bc) as [center|]; cbn [bind]; [|reflexivity].
  destruct (np_get bin (m + 1)) as [bh|]; cbn [bind]; [|reflexivity].
  destruct (to_int bh) as [high|]; cbn [bind]; reflexivity.
Qed.

(** One band: row [m - 1] is filled over [[low, high)], the rest is kept. *)
Lemma fbank_band_row bin (r c i : nat) low center high (fbank : matrix F) :
  band_edges bin (Z.of_nat i + 1) = Ok (low, center, high) ->
  0 <= low -> high <= Z.of_nat c -> (i < r)%nat ->
  (forall k, low <= k < high ->
             is_ok (filter_weight np (center - k) k) = true) ->
  shape fbank r c ->
  (forall k, (k < c)%nat -> cell fbank i k = Some (of_int 0)) ->
  exists fbank',
    fbank_band np bin (Z.of_nat i + 1) fbank = Ok fbank' /\
    shape fbank' r c /\
    (forall k, (k < c)%nat ->
               exists w, cell fbank' i k = Some w /\
                         band_cell np low center high (Z.of_nat k) w) /\
    (forall i' k, i' <> i -> cell fbank' i' k = cell fbank i' k).
Proof.
  intros Hedges Hlow Hhigh Hi Hpow Hshape Hzero.
  rewrite fbank_band_edges, Hedges. cbn [bind].
  replace (Z.of_nat i + 1 - 1) with (Z.of_nat i) by lia.
  set (Q := fun (x : Z) (fb : matrix F) =>
    shape fb r c /\
    (forall k, (k < c)%nat ->
       exists w, cell fb i k = Some w /\
                 band_cell np low center (Z.min x high) (Z.of_nat k) w) /\
    (forall i' k, i' <> i -> cell fb i' k = cell fbank i' k)).
  destruct (for_each_range_max Q
    (fun k fb => w <- filter_weight np (center - k) k ;;
                 set2 fb (Z.of_nat i) k w) low high fbank)
    as (fb & Hrun & Hs & Hrow & Hrest).
  - split; [exact Hshape|]. split; [|auto].
    intros k Hk. exists (of_int 0). split; [now apply Hzero|].
    unfold band_cell.
    destruct (Z.leb_spec low (Z.of_nat k)),
      (Z.ltb_spec (Z.of_nat k) (Z.min low high)); cbn [andb]; auto; lia.
  - intros x fb Hx (Hs & Hrow & Hrest).
    specialize (Hpow x Hx).
    destruct (filter_weight np (center - x) x) as [w|] eqn:Hw; [|discriminate].
    cbn [bind].
    assert (Hxk : exists xk, x = Z.of_nat xk) by (exists (Z.to_nat x); lia).
    destruct Hxk as [xk ->].
    destruct (set2_nat fb r c i xk w Hs Hi ltac:(lia))
      as (fb' & Hset & Hs' & Hnew & Hold).
    exists fb'. split; [exact Hset|]. split; [exact Hs'|]. split.
    + intros k Hk. destruct (Nat.eq_dec k xk) as [->|Hne].
      * exists w. split; [exact Hnew|]. unfold band_cell.
        destruct (Z.leb_spec low (Z.of_nat xk)),
          (Z.ltb_spec (Z.of_nat xk) (Z.min (Z.of_nat xk + 1) high));
          cbn [andb]; auto; lia.
      * destruct (Hrow k Hk) as (w' & Hc & Hb). exists w'.
        rewrite Hold by congruence. split; [exact Hc|].
        unfold band_cell in *.
        destruct (Z.leb_spec low (Z.of_nat k)),
          (Z.ltb_spec (Z.of_nat k) (Z.min (Z.of_nat xk + 1) high)),
          (Z.ltb_spec (Z.of_nat k) (Z.min (Z.of_nat xk) high));
          cbn [andb] in *; auto; lia.
    + intros i' k Hne. rewrite Hold by congruence. now apply Hrest.
  - exists fb. split; [exact Hrun|]. split; [exact Hs|]. split; [|exact Hrest].
    intros k Hk. destruct (Hrow k Hk) as (w & Hc & Hb). exists w.
    split; [exact Hc|]. unfold band_cell in *.
    destruct (Z.leb_spec low (Z.of_nat k)),
      (Z.ltb_spec (Z.of_nat k) (Z.min (Z.max low high) high)),
      (Z.ltb_spec (Z.of_nat k) high); cbn [andb] in *; auto; lia.
Qed.

End FilterbankFacts.

Section FilterbankClaims.
Context {F : Type} `{Scalar F}.
Variable np : NumPy F.

Lemma build_fbank_rows (fft_points : Z) (bin : list F) (r c : nat)
  (edges : Z -> Z * Z * Z) :
  fft_points / 2 + 1 = Z.of_nat c ->
  (forall m, 1 <= m <= Z.of_nat r -> band_ok np bin c m (edges m)) ->
  exists fbank,
    build_fbank np fft_points (Z.of_nat r) bin = Ok fbank /\
    shape fbank r c /\
    forall i k, (i < r)%nat -> (k < c)%nat ->
      exists w, cell fbank i k = Some w /\
                let '(low, center, high) := edges (Z.of_nat i + 1) in
                band_cell np low center high (Z.of_nat k) w.
Proof.
  intros Hc Hok. unfold build_fbank, np_zeros2. rewrite Hc.
  destruct (Z.ltb_spec (Z.of_nat r) 0); [lia|].
  destruct (Z.ltb_spec (Z.of_nat c) 0); [lia|]. cbn [orb bind].
  rewrite !Nat2Z.id.
  set (P := fun (x : Z) (fb : matrix F) =>
    shape fb r c /\
    forall i k, (i < r)%nat -> (k < c)%nat ->
      exists w, cell fb i k = Some w /\
                if Z.of_nat i + 1 <? x
                then let '(low, center, high) := edges (Z.of_nat i + 1) in
                     band_cell np low center high (Z.of_nat k) w
                else w = of_int 0).
  destruct (for_each_range P (fbank_band np bin) (Z.to_nat (Z.of_nat r + 1 - 1))
              1 (Z.of_nat r + 1) (repeat (repeat (of_int 0) c) r)
              eq_refl ltac:(lia)) as (fb & Hrun & Hs & Hcells).
  - split; [apply zeros_shape|]. intros i k Hi Hk. exists (of_int 0).
    split; [now apply zeros_cell|].
    destruct (Z.ltb_spec (Z.of_nat i + 1) 1); [lia|reflexivity].
  - intros x fb Hx [Hs Hcells].
    assert (Hxi : exists i, x = Z.of_nat i + 1) by (exists (Z.to_nat (x - 1)); lia).
    destruct Hxi as [i ->].
    pose proof (Hok (Z.of_nat i + 1) ltac:(lia)) as Hband.
    destruct (edges (Z.of_nat i + 1)) as [[low center] high] eqn:He.
    destruct Hband as (Hedges & Hlow & Hhigh & Hpow).
    destruct (fbank_band_row np bin r c i low center high fb
                Hedges Hlow Hhigh ltac:(lia) Hpow Hs)
      as (fb' & Hrun' & Hs' & Hrow & Hrest).
    { intros k Hk. destruct (Hcells i k ltac:(lia) Hk) as (w & Hw & Hz).
      destruct (Z.ltb_spec (Z.of_nat i + 1) (Z.of_nat i + 1)); [lia|].
      now subst. }
    exists fb'. split; [exact Hrun'|]. split; [exact Hs'|].
    intros i' k Hi' Hk. destruct (Nat.eq_dec i' i) as [->|Hne].
    + destruct (Hrow k Hk) as (w & Hw & Hb). exists w. split; [exact Hw|].
      destruct (Z.ltb_spec (Z.of_nat i + 1) (Z.of_nat i + 1 + 1)); [|lia].
      now rewrite He.
    + rewrite (Hrest i' k Hne).
      destruct (Hcells i' k Hi' Hk) as (w & Hw & Hb). exists w.
      split; [exact Hw|].
      destruct (Z.ltb_spec (Z.of_nat i' + 1) (Z.of_nat i + 1)),
        (Z.ltb_spec (Z.of_nat i' + 1) (Z.of_nat i + 1 + 1)); auto; lia.
  - exists fb. split; [exact Hrun|]. split; [exact Hs|].
    intros i k Hi Hk. destruct (Hcells i k Hi Hk) as (w & Hw & Hb).
    exists w. split; [exact Hw|].
    destruct (Z.ltb_spec (Z.of_nat i + 1) (Z.of_nat r + 1)); [exact Hb|lia].
Qed.


End FilterbankClaims.



(** ** Shapes along the band-energy pipeline *)

Lemma map2_length {A B C} (f : A -> B -> C) l1 l2 :
  length (map2 f l1 l2) = Nat.min (length l1) (length l2).
Proof.
  revert l2; induction l1 as [|a t IH]; intros [|b t2]; cbn; auto.
Qed.

Lemma map_result_ok {A B} (f : A -> result B) l :
  (forall a, In a l -> exists b, f a = Ok b) ->
  exists l', map_result f l = Ok l' /\ length l' = length l /\
             forall b, In b l' -> exists a, In a l /\ f a = Ok b.
Proof.
  induction l as [|a t IH]; intros Hf.
  - exists []. cbn. repeat split; auto. intros b [].
  - destruct (Hf a (or_introl eq_refl)) as (b & Hb).
    destruct IH as (t' & Ht & Hlen & Hin).
    { intros a' Ha'. apply Hf. now right. }
    exists (b :: t'). cbn [map_result]. rewrite Hb. cbn [bind]. rewrite Ht.
    cbn [bind]. split; [reflexivity|]. split; [cbn; lia|].
    intros b' [<-|Hb'].
    + exists a. split; [now left|exact Hb].
    + destruct (Hin b' Hb') as (a' & Ha' & Hfa'). exists a'. split; [now right|auto].
Qed.

Lemma map_result_length {A B} (f : A -> result B) l l' :
  map_result f l = Ok l' -> length l' = length l.
Proof.
  revert l'; induction l as [|a t IH]; intros l'; cbn [map_result].
  - intros Heq. now inversion Heq.
  - destruct (f a) as [b|]; cbn [bind]; [|discriminate].
    destruct (map_result f t) as [t'|]; cbn [bind]; [|discriminate].
    intros Heq. inversion Heq; subst. cbn. f_equal. now apply IH.
Qed.

Lemma shape_map {A B} (f : list A -> list B) (m : list (list A)) r c c' :
  shape m r c -> (forall row, length row = c -> length (f row) = c') ->
  shape (map f m) r c'.
Proof.
  intros [Hr Hc] Hf. split; [now rewrite length_map|].
  apply Forall_map. eapply Forall_impl; [|exact Hc]. exact Hf.
Qed.

Section PipelineShapes.
Context {F : Type} `{Scalar F}.
Variable np : NumPy F.

Lemma power_spectrum_shape (fft_points : Z) (frames : matrix F) :
  1 <= fft_points ->
  exists power,
    power_spectrum np fft_points frames = Ok power /\
    shape power (length frames) (Z.to_nat (fft_points / 2 + 1)).
Proof.
  intros Hfft. unfold power_spectrum.
  destruct (Z.ltb_spec fft_points 1); [lia|].
  eexists. split; [reflexivity|]. split; [now rewrite length_map|].
  apply Forall_map, Forall_forall. intros fr _.
  rewrite length_map, length_firstn, np_fft_length.
  assert (fft_points / 2 + 1 <= fft_points).
  { pose proof (Z.div_lt_upper_bound fft_points 2 fft_points). lia. }
  lia.
Qed.

Lemma np_linspace_length (start stop : F) (num : Z) :
  0 <= num ->
  exists y, np_linspace start stop num = Ok y /\ length y = Z.to_nat num.
Proof.
  intros Hnum. unfold np_linspace.
  destruct (Z.ltb_spec num 0); [lia|].
  eexists. split; [reflexivity|].
  assert (Hy : length (map (of_int : Z -> F) (range 0 num)) = Z.to_nat num).
  { rewrite length_map, range_length. f_equal. lia. }
  match goal with
  | |- length (if _ then update ?l _ _ else _) = _ =>
      assert (Hl : length l = Z.to_nat num)
  end.
  { rewrite length_map.
    destruct (0 <? num - 1); [destruct (feq _ _)|]; rewrite length_map;
      exact Hy. }
  destruct (1 <? num); [rewrite update_length|]; exact Hl.
Qed.

Lemma bin_points_length (fft_points n_bands : Z) (low_freq high_freq sr : F) :
  0 <= n_bands + 2 ->
  exists bin,
    bin_points np fft_points n_bands low_freq high_freq sr = Ok bin /\
    length bin = Z.to_nat (n_bands + 2).
Proof.
  intros Hn. unfold bin_points.
  destruct (np_linspace_length
              (low_bark (np_arcsinh np) low_freq)
              (high_bark (np_arcsinh np) high_freq sr) (n_bands + 2) Hn)
    as (y & -> & Hlen).
  cbn [bind]. eexists. split; [reflexivity|]. now rewrite !length_map.
Qed.

Lemma np_dot_T_shape (power fbank : matrix F) n b p :
  shape power n p -> shape fbank b p ->
  exists fb, np_dot_T power fbank = Ok fb /\ shape fb n b.
Proof.
  intros [Hn Hp] [Hb Hq]. unfold np_dot_T.
  assert (Hrow : forall pr, In pr power ->
            exists row, map_result (dot pr) fbank = Ok row).
  { intros pr Hpr.
    destruct (map_result_ok (dot pr) fbank) as (row & Hrow & _); eauto.
    intros f Hf. unfold dot.
    rewrite Forall_forall in Hp, Hq. rewrite (Hp pr Hpr), (Hq f Hf).
    rewrite Nat.eqb_refl. eauto. }
  destruct (map_result_ok (fun pr => map_result (dot pr) fbank) power Hrow)
    as (fb & Hfb & Hlen & Hin).
  exists fb. split; [exact Hfb|]. split; [lia|].
  apply Forall_forall. intros row Hr.
  destruct (Hin row Hr) as (pr & _ & Hrun).
  apply map_result_length in Hrun. lia.
Qed.

Lemma col_sums_length (rs : matrix F) (r : list F) b :
  length r = b -> Forall (fun row => length row = b) rs ->
  length (fold_left (map2 fadd) rs r) = b.
Proof.
  intros Hr Hrs. revert r Hr. induction Hrs as [|row rs Hrow _ IH]; intros r Hr.
  - exact Hr.
  - cbn [fold_left]. apply IH. rewrite map2_length. lia.
Qed.

Lemma np_mean0_length (m : matrix F) n b :
  shape m n b -> (0 < n)%nat -> length (np_mean0 m) = b.
Proof.
  intros [Hn Hb] Hpos. destruct m as [|r rs]; [cbn in Hn; lia|].
  unfold np_mean0. rewrite length_map. inversion Hb; subst.
  now apply col_sums_length.
Qed.

Lemma mean_normalize_shape (m : matrix F) n b :
  shape m n b -> shape (mean_normalize m) n b.
Proof.
  intros Hs. unfold mean_normalize.
  destruct (Nat.eq_dec n 0) as [->|Hn].
  - destruct Hs as [Hlen _]. apply length_zero_iff_nil in Hlen. subst m.
    split; [reflexivity|constructor].
  - apply (shape_map _ m n b b Hs). intros row Hrow.
    rewrite map2_length, Hrow, (np_mean0_length m n b Hs) by lia. lia.
Qed.

Lemma band_energy_shape (power fbank : matrix F) n b p :
  shape power n p -> shape fbank b p ->
  exists energy, band_energy np power fbank = Ok energy /\ shape energy n b.
Proof.
  intros Hp Hf. unfold band_energy.
  destruct (np_dot_T_shape power fbank n b p Hp Hf) as (fb & -> & Hs).
  cbn [bind]. eexists. split; [reflexivity|].
  apply mean_normalize_shape.
  apply (shape_map _ fb n b b Hs). intros row Hrow. now rewrite length_map.
Qed.


End PipelineShapes.

(** ** The band-energy extractor *)

Section ExtractorFacts.
Context {F : Type} `{Scalar F}.
Variable np : NumPy F.
Variable lib : Preprocessing F.


(** C9: the window type has no effect on the band-energy fingerprint. *)
Theorem extractFBE_window_type_ignored (util_frame : framing F)
  (samples : list F) (sr : F) (normalize : bool) (fft_points n_bands : Z)
  (low_freq high_freq : F) (overlapping : pynum F) (window_length : Z)
  (display : bool) (window_type window_type' : String.string) :
  extractFBEFingerprinting np lib util_frame samples sr normalize fft_points
    n_bands low_freq high_freq overlapping window_length window_type display =
  extractFBEFingerprinting np lib util_frame samples sr normalize fft_points
    n_bands low_freq high_freq overlapping window_length window_type' display.
Proof. reflexivity. Qed.

Lemma librosa_frame_short (x : list F) frame_length (hop : pynum F) :
  len x < frame_length ->
  librosa_util_frame x frame_length hop = Raise ParameterError.
Proof.
  intros Hlen. unfold librosa_util_frame.
  destruct (Z.ltb_spec (len x) frame_length); [reflexivity|lia].
Qed.

Lemma librosa_frame_bad_hop (x : list F) frame_length (hop : pynum F) :
  is_positive_int hop = false ->
  exists e, librosa_util_frame x frame_length hop = Raise e.
Proof.
  intros Hhop. unfold librosa_util_frame.
  destruct (len x <? frame_length); [eauto|].
  destruct hop as [h|h]; cbn [is_positive_int] in Hhop.
  - destruct (Z.ltb_spec h 1); [eauto|]. apply Z.leb_gt in Hhop. lia.
  - destruct (flt h (of_int 1)); eauto.
Qed.

Lemma librosa_frame_hop_below_1 (x : list F) frame_length h :
  h < 1 -> librosa_util_frame x frame_length (PyInt h) = Raise ParameterError.
Proof.
  intros Hh. unfold librosa_util_frame.
  destruct (len x <? frame_length); [reflexivity|].
  destruct (Z.ltb_spec h 1); [reflexivity|lia].
Qed.

(** C7: a hop [(1 - overlapping) * window_length] that is not a positive
    integer makes the extraction fail, and no fingerprint is returned; for
    an integer hop [<= 0] the error is the framing routine's
    [ParameterError]. *)
Theorem extractFBE_invalid_hop (samples : list F) (sr : F) (normalize : bool)
  (fft_points n_bands : Z) (low_freq high_freq : F) (overlapping : pynum F)
  (window_length : Z) (window_type : String.string) (display : bool) :
  is_positive_int (hop_length overlapping window_length) = false ->
  (exists e,
     extractFBEFingerprinting np lib librosa_util_frame samples sr normalize
       fft_points n_bands low_freq high_freq overlapping window_length
       window_type display = Raise e) /\
  (forall h, hop_length overlapping window_length = PyInt h ->
     extractFBEFingerprinting np lib librosa_util_frame samples sr normalize
       fft_points n_bands low_freq high_freq overlapping window_length
       window_type display = Raise ParameterError).
Proof.
  intros Hhop. unfold extractFBEFingerprinting, enframe. split.
  - destruct (librosa_frame_bad_hop (preprocess lib samples sr normalize)
                window_length _ Hhop) as (e & ->).
    exists e. reflexivity.
  - intros h Hh. rewrite Hh in *. cbn [is_positive_int] in Hhop.
    apply Z.leb_gt in Hhop.
    rewrite librosa_frame_hop_below_1 by lia. reflexivity.
Qed.

(** C8 (amended): a waveform shorter than [window_length] (preprocessing
    keeping its length) is refused by the framing routine: the extraction
    raises [ParameterError] and returns no matrix. *)
Theorem extractFBE_short_waveform (samples : list F) (sr : F) (normalize : bool)
  (fft_points n_bands : Z) (low_freq high_freq : F) (overlapping : pynum F)
  (window_length : Z) (window_type : String.string) (display : bool) :
  length (preprocess lib samples sr normalize) = length samples ->
  len samples < window_length ->
  extractFBEFingerprinting np lib librosa_util_frame samples sr normalize
    fft_points n_bands low_freq high_freq overlapping window_length
    window_type display = Raise ParameterError.
Proof.
  intros Hpre Hlen. unfold extractFBEFingerprinting, enframe.
  rewrite librosa_frame_short; [reflexivity|].
  unfold len in *. rewrite Hpre. exact Hlen.
Qed.

End ExtractorFacts.

Lemma extractFBE_invalid_hop_witness :
  (exists e,
     extractFBEFingerprinting Ref.numpy Ref.preprocessing librosa_util_frame
       Ref.wave (of_int 8) false 8 3 (of_int 1) (of_int 3) (PyInt 1) 4
       String.EmptyString false = Raise e) /\
  (forall h, hop_length (PyInt 1 : pynum float) 4 = PyInt h ->
     extractFBEFingerprinting Ref.numpy Ref.preprocessing librosa_util_frame
       Ref.wave (of_int 8) false 8 3 (of_int 1) (of_int 3) (PyInt 1) 4
       String.EmptyString false = Raise ParameterError).
Proof.
  apply (extractFBE_invalid_hop Ref.numpy Ref.preprocessing). reflexivity.
Defined.

Lemma extractFBE_short_waveform_witness :
  extractFBEFingerprinting Ref.numpy Ref.preprocessing librosa_util_frame
    Ref.wave (of_int 8) true 8 3 (of_int 1) (of_int 3) (PyInt 0) 13
    String.EmptyString false = Raise ParameterError.
Proof.
  apply (extractFBE_short_waveform Ref.numpy Ref.preprocessing);
    [reflexivity|vm_compute; reflexivity].
Defined.

(** C8, as stated, fails: a waveform of 12 samples with [window_length = 13]
    does not give a fingerprint with zero rows; the call raises. *)
Lemma extractFBE_short_waveform_raises :
  len Ref.wave < 13 /\
  extractFBEFingerprinting Ref.numpy Ref.preprocessing librosa_util_frame
    Ref.wave (of_int 8) false 8 3 (of_int 1) (of_int 3) (PyInt 0) 13
    String.EmptyString false = Raise ParameterError /\
  extractFBEFingerprinting Ref.numpy Ref.preprocessing librosa_util_frame
    Ref.wave (of_int 8) false 8 3 (of_int 1) (of_int 3) (PyInt 0) 13
    String.EmptyString false <> Ok [].
Proof.
  split; [vm_compute; reflexivity|].
  assert (Hrun : extractFBEFingerprinting Ref.numpy Ref.preprocessing
            librosa_util_frame Ref.wave (of_int 8) false 8 3 (of_int 1)
            (of_int 3) (PyInt 0) 13 String.EmptyString false
          = Raise ParameterError) by (vm_compute; reflexivity).
  split; [exact Hrun|]. rewrite Hrun. discriminate.
Qed.

Lemma wave_bin_ok m :
  1 <= m <= 3 -> band_ok Ref.numpy wave_bin 5 m (wave_edges m).
Proof.
  intros Hm. assert (Hcases : m = 1 \/ m = 2 \/ m = 3) by lia.
  destruct Hcases as [ -> | [ -> | -> ] ]; cbn [wave_edges Z.eqb Pos.eqb];
    (split; [vm_compute; reflexivity|]); (split; [lia|]); (split; [lia|]);
    intros k Hk; try lia;
    assert (k = 0) as -> by lia; vm_compute; reflexivity.
Defined.


(** ** The Bark bound of line 43, read in the reals *)

Lemma sinh_lower x : (0 < x)%R -> (x / 2 < sinh x)%R.
Proof.
  intros Hx. unfold sinh.
  assert (H1 : (1 + x < exp x)%R) by (apply exp_ineq1; lra).
  assert (H2 : (exp (- x) < 1)%R).
  { rewrite <- exp_0. apply exp_increasing. lra. }
  lra.
Qed.

Lemma arcsinh_upper x y : (0 < y)%R -> (x <= y / 2)%R -> (arcsinh x <= y)%R.
Proof.
  intros Hy Hxy. rewrite <- (arcsinh_sinh y). apply arcsinh_le.
  pose proof (sinh_lower y Hy). lra.
Qed.

(** C5 at [high_freq = 20000], [sr = 16000]: line 43 compares the Bark value
    with the Nyquist frequency in Hz, so nothing is clipped; the bound is
    [bark(20000)], not [bark(min(20000, 8000))]. *)
Theorem high_bark_not_clipped :
  high_bark arcsinh 20000%R 16000%R = bark arcsinh 20000%R /\
  high_bark arcsinh 20000%R 16000%R
    <> bark arcsinh (Rmin 20000 (16000 / 2))%R.
Proof.
  assert (Hb : (bark arcsinh 20000 <= 16000 / 2)%R).
  { unfold bark. cbn [fmul fdiv of_int R_scalar].
    assert (arcsinh (20000 / 600) <= 1000)%R by (apply arcsinh_upper; lra).
    lra. }
  assert (Heq : high_bark arcsinh 20000%R 16000%R = bark arcsinh 20000%R).
  { unfold high_bark, py_min. cbn [flt fdiv of_int R_scalar].
    destruct (Rlt_dec (16000 / 2) (bark arcsinh 20000))%R; [lra|reflexivity]. }
  split; [exact Heq|]. rewrite Heq.
  replace (Rmin 20000 (16000 / 2)) with 8000%R
    by (unfold Rmin; destruct (Rle_dec 20000 (16000 / 2))%R; lra).
  unfold bark. cbn [fmul fdiv of_int R_scalar].
  assert (arcsinh (8000 / 600) < arcsinh (20000 / 600))%R
    by (apply arcsinh_lt; lra).
  lra.
Qed.

(** ** Landmarks *)

Lemma for_each_list {St : Type} (P : nat -> St -> Prop) (body : Z -> St -> result St) :
  forall (xs : list Z) (done : nat) s,
    P done s ->
    (forall k x s, nth_error xs k = Some x -> P (done + k)%nat s ->
                   exists s', body x s = Ok s' /\ P (S (done + k)) s') ->
    exists s', for_each xs body s = Ok s' /\ P (done + length xs)%nat s'.
Proof.
  induction xs as [|x xs IH]; intros done s HP Hstep.
  - exists s. cbn. now rewrite Nat.add_0_r.
  - cbn [for_each]. destruct (Hstep 0%nat x s eq_refl) as (s1 & -> & HP1).
    { now rewrite Nat.add_0_r. }
    cbn [bind]. rewrite Nat.add_0_r in HP1.
    destruct (IH (S done) s1 HP1) as (s2 & Hrun & HP2).
    { intros k y s' Hk HPk. destruct (Hstep (S k) y s' Hk) as (s'' & Hb & HP'').
      - now rewrite Nat.add_succ_r.
      - exists s''. split; [exact Hb|]. now rewrite Nat.add_succ_r in HP''. }
    exists s2. split; [exact Hrun|]. cbn [length].
    now rewrite Nat.add_succ_r.
Qed.

Section ArgmaxFacts.
Context {F : Type} `{Scalar F}.

Lemma well_ordered_spec (l : list F) :
  well_ordered l = true -> ordered_on l.
Proof.
  unfold well_ordered, ordered_on. rewrite !andb_true_iff, !forallb_forall.
  intros [[Hnan Htot] Htrans]. split; [exact Hnan|]. split.
  - intros x y Hx Hy. specialize (Htot x Hx). rewrite forallb_forall in Htot.
    apply orb_true_iff. now apply Htot.
  - intros x y z Hx Hy Hz Hxy Hyz. specialize (Htrans x Hx).
    rewrite forallb_forall in Htrans. specialize (Htrans y Hy).
    rewrite forallb_forall in Htrans. specialize (Htrans z Hz).
    now rewrite Hxy, Hyz in Htrans.
Qed.

Lemma ordered_on_incl (l l' : list F) :
  ordered_on l -> incl l' l -> ordered_on l'.
Proof.
  intros (Hnan & Htot & Htrans) Hincl. repeat split.
  - intros x Hx. apply Hnan, Hincl, Hx.
  - intros x y Hx Hy. apply Htot; apply Hincl; assumption.
  - intros x y z Hx Hy Hz. apply Htrans; apply Hincl; assumption.
Qed.

(** The scan, given a running maximum that dominates what was seen. *)
Lemma argmax_scan_spec (l : list F) :
  ordered_on l ->
  forall (rest : list F) (i best : nat) (mp : F),
    (i + length rest = length l)%nat ->
    skipn i l = rest ->
    (best < i)%nat ->
    nth_error l best = Some mp ->
    (forall k x, (k < i)%nat -> nth_error l k = Some x -> fle x mp = true) ->
    (forall k x, (k < best)%nat -> nth_error l k = Some x -> fle mp x = false) ->
    exists m, nth_error l (argmax_scan mp best i rest) = Some m /\
      (forall k x, nth_error l k = Some x -> fle x m = true) /\
      (forall k x, (k < argmax_scan mp best i rest)%nat ->
                   nth_error l k = Some x -> fle m x = false).
Proof.
  intros (Hnan & Htot & Htrans).
  induction rest as [|x rest IH]; intros i best mp Hlen Hskip Hbest Hmp Hle Hlt.
  - cbn [argmax_scan]. exists mp. split; [exact Hmp|]. split; [|exact Hlt].
    intros k y Hk. apply (Hle k y); [|exact Hk].
    assert (k < length l)%nat by (apply nth_error_Some; congruence).
    cbn in Hlen. lia.
  - assert (Hx : nth_error l i = Some x).
    { rewrite <- (firstn_skipn i l) at 1. rewrite Hskip.
      assert (Hfl : length (firstn i l) = i)
        by (rewrite length_firstn; cbn in Hlen; lia).
      rewrite nth_error_app2 by lia. now rewrite Hfl, Nat.sub_diag. }
    assert (Hskip' : skipn (S i) l = rest).
    { replace (S i) with (1 + i)%nat by lia.
      rewrite <- skipn_skipn, Hskip. reflexivity. }
    assert (Hinx : In x l) by (eapply nth_error_In; eauto).
    assert (Hinmp : In mp l) by (eapply nth_error_In; eauto).
    cbn [argmax_scan]. destruct (fle x mp) eqn:Hxmp.
    + apply IH; [cbn in Hlen; lia|exact Hskip'|lia|exact Hmp| |exact Hlt].
      intros k y Hk Hy. destruct (Nat.eq_dec k i) as [->|Hne].
      * congruence.
      * apply (Hle k y); [lia|exact Hy].
    + unfold is_nan. rewrite (Hnan x Hinx). cbn [negb].
      assert (Hmpx : fle mp x = true).
      { destruct (Htot x mp Hinx Hinmp); congruence. }
      apply IH; [cbn in Hlen; lia|exact Hskip'|lia|exact Hx| |].
      * intros k y Hk Hy. assert (Hiny : In y l) by (eapply nth_error_In; eauto).
        destruct (Nat.eq_dec k i) as [->|Hne].
        -- assert (y = x) by congruence. subst y.
           destruct (Htot x x Hinx Hinx); assumption.
        -- apply (Htrans y mp x); auto. apply (Hle k y); [lia|exact Hy].
      * intros k y Hk Hy. assert (Hiny : In y l) by (eapply nth_error_In; eauto).
        destruct (fle x y) eqn:Hxy; [|reflexivity].
        rewrite (Htrans x y mp Hinx Hiny Hinmp Hxy (Hle k y Hk Hy)) in Hxmp.
        discriminate.
Qed.

(** On a non-empty list without NaN the scan returns the first position of
    the maximum. *)
Lemma argmax_nat_spec (l : list F) :
  ordered_on l -> l <> [] ->
  exists m, nth_error l (argmax_nat l) = Some m /\
    (forall k x, nth_error l k = Some x -> fle x m = true) /\
    (forall k x, (k < argmax_nat l)%nat ->
                 nth_error l k = Some x -> fle m x = false).
Proof.
  intros Hord Hne. destruct l as [|x r]; [congruence|].
  pose proof Hord as (Hnan & Htot & _).
  unfold argmax_nat, is_nan. rewrite (Hnan x (or_introl eq_refl)). cbn [negb].
  apply (argmax_scan_spec (x :: r) Hord r 1 0 x); auto.
  - intros k y Hk Hy. replace k with 0%nat in Hy by lia. cbn in Hy.
    inversion Hy; subst.
    destruct (Htot y y (or_introl eq_refl) (or_introl eq_refl)); assumption.
  - intros k y Hk. lia.
Qed.

Lemma argmax_scan_lt (rest : list F) :
  forall (mp : F) (best i : nat),
    (best < i)%nat -> (argmax_scan mp best i rest < i + length rest)%nat.
Proof.
  induction rest as [|x rest IH]; intros mp best i Hbest; cbn [argmax_scan length].
  - lia.
  - destruct (fle x mp).
    + specialize (IH mp best (Datatypes.S i) ltac:(lia)). lia.
    + destruct (is_nan x); [lia|].
      specialize (IH x i (Datatypes.S i) ltac:(lia)). lia.
Qed.

Lemma argmax_nat_lt (l : list F) : l <> [] -> (argmax_nat l < length l)%nat.
Proof.
  destruct l as [|x r]; [congruence|]. intros _. unfold argmax_nat.
  destruct (is_nan x); [cbn; lia|].
  pose proof (argmax_scan_lt r x 0 1 ltac:(lia)). cbn [length]. lia.
Qed.

Lemma np_argmax_nat (l : list F) :
  l <> [] -> np_argmax l = Ok (Z.of_nat (argmax_nat l)).
Proof. destruct l; [congruence|reflexivity]. Qed.

End ArgmaxFacts.

Lemma slice_nth {A} (l : list A) (i h a : nat) :
  nth_error (slice l (Z.of_nat i) (Z.of_nat i + Z.of_nat h)) a =
  if (a <? h)%nat then nth_error l (i + a) else None.
Proof.
  unfold slice.
  replace (Z.to_nat (Z.of_nat i + Z.of_nat h - Z.of_nat i)) with h by lia.
  rewrite Nat2Z.id. destruct (Nat.ltb_spec a h).
  - rewrite nth_error_firstn. destruct (Nat.ltb_spec a h); [|lia].
    apply nth_error_skipn.
  - apply nth_error_None. rewrite length_firstn. lia.
Qed.

Lemma slice_length {A} (l : list A) (i h : nat) :
  length (slice l (Z.of_nat i) (Z.of_nat i + Z.of_nat h)) =
  Nat.min h (length l - i).
Proof.
  unfold slice.
  replace (Z.to_nat (Z.of_nat i + Z.of_nat h - Z.of_nat i)) with h by lia.
  now rewrite Nat2Z.id, length_firstn, length_skipn.
Qed.

Lemma slice_incl {A} (l : list A) lo hi : incl (slice l lo hi) l.
Proof.
  unfold slice. intros a Ha. apply In_nth_error in Ha. destruct Ha as (k & Hk).
  rewrite nth_error_firstn in Hk.
  destruct (Nat.ltb k (Z.to_nat (hi - lo))); [|discriminate].
  rewrite nth_error_skipn in Hk. eapply nth_error_In; eauto.
Qed.

Lemma concat_length_shape {A} (m : list (list A)) r c :
  shape m r c -> length (concat m) = (r * c)%nat.
Proof.
  intros [Hr Hc]. subst r. induction Hc as [|row m Hrow _ IH]; [reflexivity|].
  cbn [concat length]. rewrite length_app, IH, Hrow. lia.
Qed.

(** Row-major flattening: position [k] of [concat m] is cell
    [(k / c, k mod c)]. *)
Lemma concat_nth {A} (m : list (list A)) r c k :
  shape m r c -> (0 < c)%nat ->
  nth_error (concat m) k = cell m (k / c) (k mod c).
Proof.
  intros [Hr Hc] Hpos. subst r. revert k.
  induction Hc as [|row m Hrow _ IH]; intros k.
  - cbn. unfold cell. now rewrite !nth_error_nil.
  - cbn [concat]. destruct (Nat.lt_ge_cases k c) as [Hlt|Hge].
    + rewrite nth_error_app1 by lia.
      rewrite Nat.div_small, Nat.mod_small by lia. reflexivity.
    + rewrite nth_error_app2 by lia. rewrite Hrow, IH.
      replace k with ((k - c) + 1 * c)%nat at 3 4 by lia.
      rewrite Nat.div_add, Nat.Div0.mod_add by lia.
      replace ((k - c) / c + 1)%nat with (S ((k - c) / c)) by lia.
      reflexivity.
Qed.

Section TileFacts.
Context {F : Type} `{Scalar F}.

Lemma tile_shape (S : matrix F) (r c h w i j : nat) :
  shape S r c ->
  shape (tile S (Z.of_nat h) (Z.of_nat w) (Z.of_nat i) (Z.of_nat j))
        (Nat.min h (r - i)) (Nat.min w (c - j)).
Proof.
  intros [Hr Hc]. unfold tile. split.
  - rewrite length_map, slice_length. lia.
  - apply Forall_map, Forall_forall. intros row Hrow.
    apply slice_incl in Hrow. rewrite Forall_forall in Hc.
    rewrite slice_length, (Hc row Hrow). reflexivity.
Qed.

Lemma tile_cell (S : matrix F) (h w i j a b : nat) :
  (a < h)%nat -> (b < w)%nat ->
  cell (tile S (Z.of_nat h) (Z.of_nat w) (Z.of_nat i) (Z.of_nat j)) a b =
  cell S (i + a) (j + b).
Proof.
  intros Ha Hb. unfold cell, tile. rewrite nth_error_map, slice_nth.
  destruct (Nat.ltb_spec a h); [|lia].
  destruct (nth_error S (i + a)) as [row|]; cbn [option_map]; [|reflexivity].
  rewrite slice_nth. destruct (Nat.ltb_spec b w); [reflexivity|lia].
Qed.

Lemma cell_In (S : matrix F) i j a : cell S i j = Some a -> In a (concat S).
Proof.
  unfold cell. destruct (nth_error S i) as [row|] eqn:E; [|discriminate].
  intros Ha. apply in_concat. exists row. split; eapply nth_error_In; eauto.
Qed.

Lemma tile_incl (S : matrix F) h w i j :
  incl (concat (tile S h w i j)) (concat S).
Proof.
  intros a Ha. apply in_concat in Ha. destruct Ha as (row & Hrow & Ha).
  unfold tile in Hrow. apply in_map_iff in Hrow.
  destruct Hrow as (row0 & <- & Hrow0). apply slice_incl in Ha, Hrow0.
  apply in_concat. eauto.
Qed.

End TileFacts.

Lemma tiles_lt n h k : (0 < h)%nat -> (k < tiles n h)%nat <-> (k * h < n)%nat.
Proof.
  intros Hh. unfold tiles.
  pose proof (Z.div_mod (Z.of_nat n + Z.of_nat h - 1) (Z.of_nat h) ltac:(lia)).
  pose proof (Z.mod_pos_bound (Z.of_nat n + Z.of_nat h - 1) (Z.of_nat h)
                ltac:(lia)).
  split; intros Hk.
  - assert (Z.of_nat k < (Z.of_nat n + Z.of_nat h - 1) / Z.of_nat h) by lia.
    nia.
  - assert (Z.of_nat k < (Z.of_nat n + Z.of_nat h - 1) / Z.of_nat h); [|lia].
    assert (Z.of_nat k * Z.of_nat h < Z.of_nat n) by nia. nia.
Qed.

Lemma range_step_pos (n h : nat) :
  (0 < h)%nat ->
  range_step (Z.of_nat n) (Z.of_nat h) =
  Ok (map (fun k => Z.of_nat (k * h)) (seq 0 (tiles n h))).
Proof.
  intros Hh. unfold range_step.
  destruct (Z.eqb_spec (Z.of_nat h) 0); [lia|].
  destruct (Z.ltb_spec (Z.of_nat h) 0); [lia|].
  f_equal. apply map_ext. intros k. lia.
Qed.

Section LandmarkFacts.
Context {F : Type} `{Scalar F}.

(** The marked cell lies in its tile, whatever the entries are. *)
Lemma peak_in_tile (S : matrix F) (r c h w i j : nat) :
  shape S r c -> (i < r)%nat -> (j < c)%nat -> (0 < h)%nat -> (0 < w)%nat ->
  in_tile r c h w i j
    (fst (peak S (Z.of_nat h) (Z.of_nat w) i j))
    (snd (peak S (Z.of_nat h) (Z.of_nat w) i j)).
Proof.
  intros Hs Hi Hj Hh Hw.
  pose proof (tile_shape S r c h w i j Hs) as Ht.
  set (rt := Nat.min h (r - i)) in *. set (ct := Nat.min w (c - j)) in *.
  set (T := tile S (Z.of_nat h) (Z.of_nat w) (Z.of_nat i) (Z.of_nat j)) in *.
  assert (Hrt : (0 < rt)%nat) by (unfold rt; lia).
  assert (Hct : (0 < ct)%nat) by (unfold ct; lia).
  assert (Hlen : length (concat T) = (rt * ct)%nat)
    by (apply concat_length_shape; exact Ht).
  assert (Hne : concat T <> []).
  { intros Hnil. rewrite Hnil in Hlen. cbn in Hlen. nia. }
  assert (Hhd : length (hd [] T) = ct).
  { destruct Ht as [Hr Hc]. destruct T as [|row T']; [cbn in Hr; lia|].
    now inversion Hc. }
  pose proof (argmax_nat_lt (concat T) Hne) as Hk. rewrite Hlen in Hk.
  unfold peak. fold T. rewrite Hhd. cbn [fst snd].
  set (k := argmax_nat (concat T)) in *.
  assert (Hkd : (k / ct < rt)%nat) by (apply Nat.Div0.div_lt_upper_bound; lia).
  assert (Hkm : (k mod ct < ct)%nat) by (apply Nat.mod_upper_bound; lia).
  unfold in_tile, rt, ct in *. lia.
Qed.

Lemma peak_first_max (S : matrix F) (r c h w i j : nat) :
  shape S r c -> (i < r)%nat -> (j < c)%nat -> (0 < h)%nat -> (0 < w)%nat ->
  ordered_on (concat S) ->
  first_max S r c h w i j
    (fst (peak S (Z.of_nat h) (Z.of_nat w) i j))
    (snd (peak S (Z.of_nat h) (Z.of_nat w) i j)).
Proof.
  intros Hs Hi Hj Hh Hw Hord.
  pose proof (tile_shape S r c h w i j Hs) as Ht.
  set (rt := Nat.min h (r - i)) in *. set (ct := Nat.min w (c - j)) in *.
  set (T := tile S (Z.of_nat h) (Z.of_nat w) (Z.of_nat i) (Z.of_nat j)) in *.
  assert (Hrt : (0 < rt)%nat) by (unfold rt; lia).
  assert (Hct : (0 < ct)%nat) by (unfold ct; lia).
  assert (Hlen : length (concat T) = (rt * ct)%nat)
    by (apply concat_length_shape; exact Ht).
  assert (Hne : concat T <> []).
  { intros Hnil. rewrite Hnil in Hlen. cbn in Hlen. nia. }
  assert (Hhd : length (hd [] T) = ct).
  { destruct Ht as [Hr Hc]. destruct T as [|row T']; [cbn in Hr; lia|].
    now inversion Hc. }
  assert (Hord' : ordered_on (concat T))
    by (eapply ordered_on_incl; [exact Hord|apply tile_incl]).
  destruct (argmax_nat_spec (concat T) Hord' Hne) as (m & Hm & Hmax & Hfirst).
  unfold peak. fold T. rewrite Hhd. cbn [fst snd].
  set (k := argmax_nat (concat T)) in *.
  assert (Hk : (k < rt * ct)%nat).
  { rewrite <- Hlen. apply nth_error_Some. congruence. }
  assert (Hkd : (k / ct < rt)%nat) by (apply Nat.Div0.div_lt_upper_bound; lia).
  assert (Hkm : (k mod ct < ct)%nat) by (apply Nat.mod_upper_bound; lia).
  assert (Hat : at2 S (i + k / ct) (j + k mod ct) = m).
  { apply cell_at2. rewrite <- (tile_cell S h w i j) by (unfold rt, ct in *; lia).
    fold T. rewrite <- (concat_nth T rt ct k Ht Hct). exact Hm. }
  assert (Hpos : forall x y, in_tile r c h w i j x y ->
            exists v, nth_error (concat T) ((x - i) * ct + (y - j)) = Some v /\
                      at2 S x y = v).
  { intros x y [Hx Hy].
    destruct (shape_cell S r c x y Hs ltac:(lia) ltac:(lia)) as (v & Hv).
    exists v. split; [|now apply cell_at2].
    rewrite (concat_nth T rt ct _ Ht Hct).
    rewrite Nat.div_add_l, Nat.div_small, Nat.add_0_r by (unfold ct; lia).
    rewrite Nat.add_comm, Nat.Div0.mod_add, Nat.mod_small by (unfold ct; lia).
    unfold T. rewrite tile_cell by lia.
    replace (i + (x - i))%nat with x by lia.
    replace (j + (y - j))%nat with y by lia. exact Hv. }
  split; [|split].
  - unfold in_tile, rt, ct in *. lia.
  - intros x y Hin. destruct (Hpos x y Hin) as (v & Hv & Hxy).
    rewrite Hat, Hxy. eapply Hmax; eauto.
  - intros x y Hin Hbefore. destruct (Hpos x y Hin) as (v & Hv & Hxy).
    rewrite Hat, Hxy. apply (Hfirst ((x - i) * ct + (y - j))%nat v); [|exact Hv].
    destruct Hin as [Hx Hy].
    pose proof (Nat.div_mod_eq k ct) as Hdm.
    assert (Hyj : (y - j < ct)%nat) by (unfold ct; lia).
    destruct Hbefore as [Hlt|[Heq Hlt]].
    + assert ((x - i) + 1 <= k / ct)%nat by lia. nia.
    + assert ((x - i) = k / ct)%nat by lia. nia.
Qed.

Lemma mark_tile_peak (S fp : matrix F) (r c h w i j : nat) :
  shape S r c -> (i < r)%nat -> (j < c)%nat -> (0 < h)%nat -> (0 < w)%nat ->
  mark_tile S (Z.of_nat h) (Z.of_nat w) (Z.of_nat i) (Z.of_nat j) fp =
  set2 fp (Z.of_nat (fst (peak S (Z.of_nat h) (Z.of_nat w) i j)))
          (Z.of_nat (snd (peak S (Z.of_nat h) (Z.of_nat w) i j))) (of_int 1).
Proof.
  intros Hs Hi Hj Hh Hw.
  pose proof (tile_shape S r c h w i j Hs) as Ht.
  unfold mark_tile, peak.
  set (T := tile S (Z.of_nat h) (Z.of_nat w) (Z.of_nat i) (Z.of_nat j)) in *.
  assert (Hlen : length (concat T) = (Nat.min h (r - i) * Nat.min w (c - j))%nat)
    by (apply concat_length_shape; exact Ht).
  assert (Hne : concat T <> []).
  { intros Hnil. rewrite Hnil in Hlen. cbn in Hlen. nia. }
  rewrite (np_argmax_nat _ Hne). cbn [bind].
  destruct T as [|row T'] eqn:ET; [cbn in Hne; congruence|].
  change (np_get (row :: T') 0) with (Ok row : result (list F)).
  cbn [bind hd fst snd]. unfold len.
  assert (Hrow : (0 < length row)%nat).
  { destruct Ht as [_ Hc]. inversion Hc; subst. lia. }
  rewrite <- Nat2Z.inj_div, <- Nat2Z.inj_mod, <- !Nat2Z.inj_add.
  reflexivity.
Qed.

End LandmarkFacts.

Lemma nth_error_steps (n h k : nat) x :
  nth_error (map (fun k => Z.of_nat (k * h)) (seq 0 n)) k = Some x ->
  x = Z.of_nat (k * h) /\ (k < n)%nat.
Proof.
  intros Hk. assert (Hlt : (k < n)%nat).
  { assert (Hsome : nth_error (map (fun k => Z.of_nat (k * h)) (seq 0 n)) k <> None)
      by congruence.
    apply nth_error_Some in Hsome. now rewrite length_map, length_seq in Hsome. }
  split; [|exact Hlt].
  rewrite nth_error_map, nth_error_seq in Hk.
  destruct (Nat.ltb_spec k n); [|lia]. cbn in Hk. congruence.
Qed.

Lemma div_tile (h k x : nat) : (k * h <= x < k * h + h)%nat -> (x / h = k)%nat.
Proof.
  intros Hx. symmetry. apply (Nat.div_unique x h k (x - k * h)); lia.
Qed.

Section LandmarkLoops.
Context {F : Type} `{Scalar F}.

Lemma zeros_like_shape (S : matrix F) r c :
  shape S r c -> shape (map (map (fun _ => of_int 0 : F)) S) r c.
Proof.
  intros Hs. apply (shape_map _ S r c c Hs). intros row Hrow.
  now rewrite length_map.
Qed.

Lemma zeros_like_cell (S : matrix F) r c x y :
  shape S r c -> (x < r)%nat -> (y < c)%nat ->
  cell (map (map (fun _ => of_int 0 : F)) S) x y = Some (of_int 0).
Proof.
  intros Hs Hx Hy. destruct (shape_row S r c x Hs Hx) as (row & Hrow & Hlen).
  unfold cell. rewrite nth_error_map, Hrow. cbn [option_map].
  rewrite nth_error_map.
  destruct (nth_error row y) eqn:E; [reflexivity|].
  apply nth_error_None in E. lia.
Qed.

Lemma is_peak_tile (S : matrix F) (h w k l x y : nat) :
  (x / h = k)%nat -> (y / w = l)%nat ->
  is_peak S h w x y =
  Nat.eqb x (fst (peak S (Z.of_nat h) (Z.of_nat w) (k * h) (l * w))) &&
  Nat.eqb y (snd (peak S (Z.of_nat h) (Z.of_nat w) (k * h) (l * w))).
Proof. intros <- <-. reflexivity. Qed.

(** Lines 118-127, cell by cell: a cell holds 1 when it is the one marked
    in its tile and 0 otherwise. *)
Lemma landmarks_cells (S : matrix F) (r c h w : nat) :
  shape S r c -> (0 < h)%nat -> (0 < w)%nat ->
  exists fp,
    landmarks S (Z.of_nat h) (Z.of_nat w) = Ok fp /\
    shape fp r c /\
    forall x y, (x < r)%nat -> (y < c)%nat ->
      cell fp x y = Some (if is_peak S h w x y then of_int 1 else of_int 0).
Proof.
  intros Hs Hh Hw. unfold landmarks.
  assert (HlenS : len S = Z.of_nat r) by (unfold len; destruct Hs; lia).
  rewrite HlenS, range_step_pos by exact Hh. cbn [bind].
  set (P := fun (k : nat) (fp : matrix F) =>
    shape fp r c /\
    forall x y, (x < r)%nat -> (y < c)%nat ->
      cell fp x y =
      Some (if (x / h <? k)%nat && is_peak S h w x y
            then of_int 1 else of_int 0)).
  destruct (for_each_list P
    (fun i fp => row0 <- np_get S 0 ;;
       cols <- range_step (len row0) (Z.of_nat w) ;;
       for_each cols
         (fun j fp => mark_tile S (Z.of_nat h) (Z.of_nat w) i j fp) fp)
    (map (fun k => Z.of_nat (k * h)) (seq 0 (tiles r h))) 0
    (map (map (fun _ => of_int 0)) S))
    as (fp & Hrun & Hshape & Hcells).
  - split; [now apply zeros_like_shape|]. intros x y Hx Hy.
    rewrite (zeros_like_cell S r c) by auto. reflexivity.
  - intros k i fp Hi [Hshape Hcells]. cbn [Nat.add] in *.
    apply nth_error_steps in Hi. destruct Hi as [-> Hk].
    apply tiles_lt in Hk; [|exact Hh].
    destruct (shape_row S r c 0 Hs ltac:(lia)) as (row0 & Hrow0 & Hlen0).
    pose proof (np_get_nat S 0 row0 Hrow0) as Hget0.
    change (Z.of_nat 0) with 0 in Hget0. rewrite Hget0. cbn [bind].
    unfold len. rewrite Hlen0, range_step_pos by exact Hw. cbn [bind].
    set (Q := fun (l : nat) (fp : matrix F) =>
      shape fp r c /\
      forall x y, (x < r)%nat -> (y < c)%nat ->
        cell fp x y =
        Some (if ((x / h <? k)%nat ||
                  (Nat.eqb (x / h) k && (y / w <? l)%nat)) &&
                 is_peak S h w x y
              then of_int 1 else of_int 0)).
    destruct (for_each_list Q
      (fun j fp => mark_tile S (Z.of_nat h) (Z.of_nat w) (Z.of_nat (k * h)) j fp)
      (map (fun l => Z.of_nat (l * w)) (seq 0 (tiles c w))) 0 fp)
      as (fp' & Hrun' & Hshape' & Hcells').
    + split; [exact Hshape|]. intros x y Hx Hy. rewrite (Hcells x y Hx Hy).
      destruct (Nat.ltb_spec (y / w) 0); [lia|].
      now rewrite andb_false_r, orb_false_r.
    + intros l j fp1 Hj [Hshape1 Hcells1]. cbn [Nat.add] in *.
      apply nth_error_steps in Hj. destruct Hj as [-> Hl].
      apply tiles_lt in Hl; [|exact Hw].
      rewrite (mark_tile_peak S fp1 r c h w (k * h) (l * w)) by auto.
      destruct (peak_in_tile S r c h w (k * h) (l * w) Hs Hk Hl Hh Hw)
        as [Hpx Hpy].
      set (p := peak S (Z.of_nat h) (Z.of_nat w) (k * h) (l * w)) in *.
      assert (Hpk : (fst p / h = k)%nat) by (apply div_tile; lia).
      assert (Hpl : (snd p / w = l)%nat) by (apply div_tile; lia).
      destruct (set2_nat fp1 r c (fst p) (snd p) (of_int 1) Hshape1
                  ltac:(lia) ltac:(lia)) as (fp2 & Hset & Hshape2 & Hnew & Hold).
      exists fp2. split; [exact Hset|]. split; [exact Hshape2|].
      intros x y Hx Hy.
      destruct (Nat.eq_dec x (fst p)) as [Hxp|Hxp];
        [destruct (Nat.eq_dec y (snd p)) as [Hyp|Hyp]|].
      * subst x y. rewrite Hnew, (is_peak_tile S h w k l) by assumption.
        fold p. rewrite Hpk, Hpl, !Nat.eqb_refl.
        destruct (Nat.ltb_spec l (Datatypes.S l)); [|lia].
        cbn [andb]. now rewrite orb_true_r.
      * rewrite Hold by congruence. rewrite (Hcells1 x y Hx Hy).
        subst x. rewrite Hpk, Nat.eqb_refl. cbn [andb].
        destruct (Nat.eq_dec (y / w) l) as [Hyl|Hyl].
        -- rewrite (is_peak_tile S h w k l) by assumption. fold p.
           destruct (Nat.eqb_spec y (snd p)); [congruence|].
           now rewrite !andb_false_r.
        -- destruct (Nat.ltb_spec (y / w) l), (Nat.ltb_spec (y / w) (Datatypes.S l));
             try lia; reflexivity.
      * rewrite Hold by congruence. rewrite (Hcells1 x y Hx Hy).
        destruct (Nat.eqb_spec (x / h) k) as [Hxk|Hxk]; [|reflexivity].
        cbn [andb].
        destruct (Nat.eq_dec (y / w) l) as [Hyl|Hyl].
        -- rewrite (is_peak_tile S h w k l) by assumption. fold p.
           destruct (Nat.eqb_spec x (fst p)); [congruence|].
           cbn [andb]. now rewrite !andb_false_r.
        -- destruct (Nat.ltb_spec (y / w) l), (Nat.ltb_spec (y / w) (Datatypes.S l));
             try lia; reflexivity.
    + exists fp'. split; [exact Hrun'|]. split; [exact Hshape'|].
      intros x y Hx Hy. rewrite (Hcells' x y Hx Hy).
      rewrite length_map, length_seq. cbn [Nat.add].
      assert (Hyt : (y / w < tiles c w)%nat).
      { apply tiles_lt; [exact Hw|].
        pose proof (Nat.Div0.mul_div_le y w). lia. }
      destruct (Nat.ltb_spec (y / w) (tiles c w)); [|lia].
      rewrite andb_true_r.
      destruct (Nat.ltb_spec (x / h) k), (Nat.eqb_spec (x / h) k),
        (Nat.ltb_spec (x / h) (Datatypes.S k)); try lia; reflexivity.
  - exists fp. split; [exact Hrun|]. split; [exact Hshape|].
    intros x y Hx Hy. rewrite (Hcells x y Hx Hy).
    rewrite length_map, length_seq. cbn [Nat.add].
    assert (Hxt : (x / h < tiles r h)%nat).
    { apply tiles_lt; [exact Hh|].
      pose proof (Nat.Div0.mul_div_le x h). lia. }
    destruct (Nat.ltb_spec (x / h) (tiles r h)); [reflexivity|lia].
Qed.

End LandmarkLoops.

Section LandmarkTiles.
Context {F : Type} `{Scalar F}.

(** The tile loop of lines 118-127 on a magnitude matrix without NaN: the
    result has the shape of the matrix, and each [height] by [width] tile
    of the grid (the last ones may be smaller) holds exactly one set bit,
    at the maximum of the tile, the first one in row-major order when there
    are ties. *)
Theorem landmarks_one_bit_per_tile (S : matrix F) (r c h w a b : nat) :
  shape S r c -> (0 < h)%nat -> (0 < w)%nat ->
  well_ordered (concat S) = true ->
  (a * h < r)%nat -> (b * w < c)%nat ->
  exists fp px py,
    landmarks S (Z.of_nat h) (Z.of_nat w) = Ok fp /\
    shape fp r c /\
    first_max S r c h w (a * h) (b * w) px py /\
    forall x y, in_tile r c h w (a * h) (b * w) x y ->
      cell fp x y =
      Some (if Nat.eqb x px && Nat.eqb y py then of_int 1 else of_int 0).
Proof.
  intros Hs Hh Hw Hord Ha Hb. apply well_ordered_spec in Hord.
  destruct (landmarks_cells S r c h w Hs Hh Hw) as (fp & Hrun & Hshape & Hcells).
  exists fp, (fst (peak S (Z.of_nat h) (Z.of_nat w) (a * h) (b * w))),
    (snd (peak S (Z.of_nat h) (Z.of_nat w) (a * h) (b * w))).
  split; [exact Hrun|]. split; [exact Hshape|].
  split; [now apply peak_first_max|].
  intros x y [Hx Hy]. rewrite (Hcells x y) by lia.
  rewrite (is_peak_tile S h w a b) by (apply div_tile; lia). reflexivity.
Qed.

End LandmarkTiles.

Lemma magnitudes_a_shape : shape magnitudes_a 3 5.
Proof. split; [reflexivity|]. repeat constructor. Qed.

Lemma landmarks_one_bit_per_tile_witness :
  exists fp px py,
    landmarks magnitudes_a (Z.of_nat 2) (Z.of_nat 2) = Ok fp /\
    shape fp 3 5 /\
    first_max magnitudes_a 3 5 2 2 (0 * 2) (0 * 2) px py /\
    forall x y, in_tile 3 5 2 2 (0 * 2) (0 * 2) x y ->
      cell fp x y =
      Some (if Nat.eqb x px && Nat.eqb y py then of_int 1 else of_int 0).
Proof.
  apply (landmarks_one_bit_per_tile magnitudes_a 3 5 2 2 0 0);
    [apply magnitudes_a_shape|lia|lia|vm_compute; reflexivity|lia|lia].
Defined.

(** ** Further properties of the landmark loop *)

Lemma list_prod_NoDup {A B} (l : list A) (l' : list B) :
  NoDup l -> NoDup l' -> NoDup (list_prod l l').
Proof.
  intros Hl Hl'. induction Hl as [|a l Ha Hl IH]; cbn [list_prod]; [constructor|].
  apply NoDup_app; [|exact IH|].
  - apply Finite.Injective_map_NoDup; [|exact Hl'].
    intros b b' Hb. now inversion Hb.
  - intros [a' b] Hin Hin'. apply in_map_iff in Hin.
    destruct Hin as (b' & Heq & _). inversion Heq; subst.
    apply in_prod_iff in Hin'. now destruct Hin'.
Qed.

Lemma for_each_unchanged {St : Type} (body : Z -> St -> result St) xs s :
  (forall x s', In x xs -> body x s' = Ok s') -> for_each xs body s = Ok s.
Proof.
  induction xs as [|x xs IH]; intros Hbody; [reflexivity|].
  cbn [for_each]. rewrite (Hbody x s (or_introl eq_refl)). cbn [bind].
  apply IH. intros y s' Hy. apply Hbody. now right.
Qed.

Section LandmarkEdges.
Context {F : Type} `{Scalar F}.

(** With positive tile sizes the tile loop never raises, whatever the
    magnitudes are (NaN included): it returns a matrix of the shape of the
    spectrogram with entries 0 or 1. *)
Theorem landmarks_total (S : matrix F) (r c h w : nat) :
  shape S r c -> (0 < h)%nat -> (0 < w)%nat ->
  exists fp,
    landmarks S (Z.of_nat h) (Z.of_nat w) = Ok fp /\
    shape fp r c /\
    forall x y, (x < r)%nat -> (y < c)%nat ->
      exists v, cell fp x y = Some v /\ is_bit v.
Proof.
  intros Hs Hh Hw.
  destruct (landmarks_cells S r c h w Hs Hh Hw) as (fp & Hrun & Hshape & Hcells).
  exists fp. split; [exact Hrun|]. split; [exact Hshape|].
  intros x y Hx Hy. rewrite (Hcells x y Hx Hy).
  eexists. split; [reflexivity|]. unfold is_bit.
  destruct (is_peak S h w x y); auto.
Qed.

(** A tile size of zero is refused by [range]: [height = 0] always raises
    [ValueError]; [width = 0] raises it as soon as the spectrogram has a
    row. *)
Theorem landmarks_zero_step (S : matrix F) (height width : Z) :
  (height = 0 \/ (0 < height /\ width = 0 /\ S <> [])) ->
  landmarks S height width = Raise ValueError.
Proof.
  intros [->|(Hh & -> & Hne)]; unfold landmarks, range_step.
  - reflexivity.
  - destruct (Z.eqb_spec height 0); [lia|].
    destruct (Z.ltb_spec height 0); [lia|]. cbn [bind].
    destruct S as [|row0 S']; [congruence|].
    assert (Hsteps : Z.to_nat ((len (row0 :: S') + height - 1) / height)
                     = Datatypes.S (Nat.pred (Z.to_nat
                         ((len (row0 :: S') + height - 1) / height)))).
    { assert (1 <= (len (row0 :: S') + height - 1) / height); [|lia].
      apply Z.div_le_lower_bound; [lia|]. unfold len. cbn [length]. lia. }
    rewrite Hsteps. cbn [seq map for_each].
    change (np_get (row0 :: S') 0) with (Ok row0 : result (list F)).
    reflexivity.
Qed.

(** A negative tile size is not an error: the loops do not run and the
    all-zero matrix is returned. *)
Theorem landmarks_negative_step (S : matrix F) (height width : Z) :
  (height < 0 \/ (0 < height /\ width < 0)) ->
  landmarks S height width = Ok (map (map (fun _ => of_int 0)) S).
Proof.
  intros [Hh|[Hh Hw]]; unfold landmarks, range_step.
  - destruct (Z.eqb_spec height 0); [lia|].
    destruct (Z.ltb_spec height 0); [reflexivity|lia].
  - destruct (Z.eqb_spec height 0); [lia|].
    destruct (Z.ltb_spec height 0); [lia|]. cbn [bind].
    apply for_each_unchanged. intros i fp Hi.
    destruct S as [|row0 S'].
    + unfold len in Hi. cbn [length Z.of_nat] in Hi.
      rewrite Z.div_small in Hi by lia. destruct Hi.
    + change (np_get (row0 :: S') 0) with (Ok row0 : result (list F)).
      cbn [bind].
      destruct (Z.eqb_spec width 0); [lia|].
      destruct (Z.ltb_spec width 0); [reflexivity|lia].
Qed.

Lemma peak_tile_index (S : matrix F) (r c h w a b : nat) :
  shape S r c -> (0 < h)%nat -> (0 < w)%nat ->
  (a * h < r)%nat -> (b * w < c)%nat ->
  (fst (peak S (Z.of_nat h) (Z.of_nat w) (a * h) (b * w)) / h = a)%nat /\
  (snd (peak S (Z.of_nat h) (Z.of_nat w) (a * h) (b * w)) / w = b)%nat.
Proof.
  intros Hs Hh Hw Ha Hb.
  destruct (peak_in_tile S r c h w (a * h) (b * w) Hs Ha Hb Hh Hw) as [Hx Hy].
  split; apply div_tile; lia.
Qed.

Lemma is_marked_peak (S : matrix F) (r c h w x y : nat) :
  shape S r c -> (0 < h)%nat -> (0 < w)%nat -> (x < r)%nat -> (y < c)%nat ->
  is_marked (marked S r c h w) x y = is_peak S h w x y.
Proof.
  intros Hs Hh Hw Hx Hy. unfold is_marked, marked.
  destruct (is_peak S h w x y) eqn:Hp.
  - apply existsb_exists.
    exists (peak S (Z.of_nat h) (Z.of_nat w) (x / h * h) (y / w * w)).
    split; [|exact Hp].
    apply in_map_iff. exists (x / h, y / w)%nat. split; [reflexivity|].
    apply in_prod; apply in_seq; split; try lia; cbn [Nat.add];
      apply tiles_lt; auto.
    + pose proof (Nat.Div0.mul_div_le x h). lia.
    + pose proof (Nat.Div0.mul_div_le y w). lia.
  - destruct (existsb _ _) eqn:He; [|reflexivity].
    apply existsb_exists in He. destruct He as (p & Hin & Hxy).
    apply in_map_iff in Hin. destruct Hin as ([a b] & <- & Hab).
    apply in_prod_iff in Hab. destruct Hab as [Ha Hb].
    apply in_seq in Ha, Hb. cbn [fst snd] in *.
    assert (Hah : (a * h < r)%nat) by (apply tiles_lt; auto; lia).
    assert (Hbw : (b * w < c)%nat) by (apply tiles_lt; auto; lia).
    destruct (peak_tile_index S r c h w a b Hs Hh Hw Hah Hbw) as [Hpa Hpb].
    apply andb_true_iff in Hxy. destruct Hxy as [Hx' Hy'].
    apply Nat.eqb_eq in Hx', Hy'.
    rewrite (is_peak_tile S h w a b) in Hp by congruence.
    rewrite <- Hx', <- Hy', !Nat.eqb_refl in Hp. discriminate.
Qed.

Lemma marked_NoDup (S : matrix F) (r c h w : nat) :
  shape S r c -> (0 < h)%nat -> (0 < w)%nat -> NoDup (marked S r c h w).
Proof.
  intros Hs Hh Hw. unfold marked.
  apply Finite.Injective_map_NoDup_in.
  - intros [a b] [a' b'] Hab Hab' Heq.
    apply in_prod_iff in Hab, Hab'. destruct Hab as [Ha Hb], Hab' as [Ha' Hb'].
    apply in_seq in Ha, Hb, Ha', Hb'. cbn [fst snd] in *.
    assert (Hah : (a * h < r)%nat) by (apply tiles_lt; auto; lia).
    assert (Hbw : (b * w < c)%nat) by (apply tiles_lt; auto; lia).
    assert (Hah' : (a' * h < r)%nat) by (apply tiles_lt; auto; lia).
    assert (Hbw' : (b' * w < c)%nat) by (apply tiles_lt; auto; lia).
    destruct (peak_tile_index S r c h w a b Hs Hh Hw Hah Hbw) as [Hpa Hpb].
    destruct (peak_tile_index S r c h w a' b' Hs Hh Hw Hah' Hbw') as [Hpa' Hpb'].
    rewrite Heq in Hpa, Hpb. f_equal; congruence.
  - apply list_prod_NoDup; apply seq_NoDup.
Qed.

Lemma filter_or_length {A} (f g : A -> bool) (l : list A) :
  (forall a, In a l -> f a = true -> g a = false) ->
  length (filter (fun a => f a || g a) l) =
  (length (filter f l) + length (filter g l))%nat.
Proof.
  induction l as [|a l IH]; intros Hdisj; [reflexivity|].
  cbn [filter]. pose proof (Hdisj a (or_introl eq_refl)) as Ha.
  assert (IH' := IH (fun b Hb => Hdisj b (or_intror Hb))).
  destruct (f a) eqn:Hf; cbn [orb].
  - rewrite (Ha eq_refl). cbn [length]. lia.
  - destruct (g a); cbn [length]; lia.
Qed.

Lemma filter_none_length {A} (f : A -> bool) (l : list A) :
  (forall a, In a l -> f a = false) -> length (filter f l) = 0%nat.
Proof.
  induction l as [|a l IH]; intros Hf; [reflexivity|].
  cbn [filter]. rewrite (Hf a (or_introl eq_refl)).
  apply IH. intros b Hb. apply Hf. now right.
Qed.

Lemma at_position_eq q p : at_position q p = true <-> p = q.
Proof.
  unfold at_position. rewrite andb_true_iff, !Nat.eqb_eq.
  destruct p, q; cbn. split; [intros []; congruence|now inversion 1].
Qed.

Lemma filter_one_length (q : nat * nat) (l : list (nat * nat)) :
  NoDup l -> In q l -> length (filter (at_position q) l) = 1%nat.
Proof.
  induction 1 as [|a l Ha Hl IH]; intros Hq; [destruct Hq|].
  cbn [filter]. destruct (at_position q a) eqn:Hqa.
  - apply at_position_eq in Hqa. subst a. cbn [length]. f_equal.
    apply filter_none_length. intros b Hb.
    destruct (at_position q b) eqn:Hqb; [|reflexivity].
    apply at_position_eq in Hqb. now subst b.
  - apply IH. destruct Hq as [->|Hq]; [|exact Hq].
    assert (at_position q q = true) by now apply at_position_eq.
    congruence.
Qed.

(** Counting the positions of a duplicate-free list inside a duplicate-free
    enumeration gives the length of the list. *)
Lemma filter_marked_length (l univ : list (nat * nat)) :
  NoDup univ -> NoDup l -> incl l univ ->
  length (filter (fun p => is_marked l (fst p) (snd p)) univ) = length l.
Proof.
  intros Huniv Hl. induction Hl as [|q l Hq Hl IH]; intros Hincl.
  - apply filter_none_length. reflexivity.
  - assert (Hext : forall p,
              is_marked (q :: l) (fst p) (snd p) =
              at_position q p || is_marked l (fst p) (snd p)) by reflexivity.
    rewrite (filter_ext _ _ Hext), filter_or_length.
    + rewrite (filter_one_length q univ Huniv (Hincl q (or_introl eq_refl))).
      rewrite IH; [reflexivity|]. intros p Hp. apply Hincl. now right.
    + intros p _ Hp. apply at_position_eq in Hp. subst p.
      destruct (is_marked l (fst q) (snd q)) eqn:Hm; [|reflexivity].
      apply existsb_exists in Hm. destruct Hm as (q' & Hq' & Heq).
      assert (q = q') by (apply at_position_eq; exact Heq).
      subst q'. contradiction.
Qed.

Lemma marked_in_range (S : matrix F) (r c h w : nat) :
  shape S r c -> (0 < h)%nat -> (0 < w)%nat ->
  incl (marked S r c h w) (list_prod (seq 0 r) (seq 0 c)).
Proof.
  intros Hs Hh Hw p Hp. unfold marked in Hp. apply in_map_iff in Hp.
  destruct Hp as ([a b] & <- & Hab). apply in_prod_iff in Hab.
  destruct Hab as [Ha Hb]. apply in_seq in Ha, Hb. cbn [fst snd] in *.
  assert (Hah : (a * h < r)%nat) by (apply tiles_lt; auto; lia).
  assert (Hbw : (b * w < c)%nat) by (apply tiles_lt; auto; lia).
  destruct (peak_in_tile S r c h w (a * h) (b * w) Hs Hah Hbw Hh Hw) as [Hx Hy].
  destruct (peak S (Z.of_nat h) (Z.of_nat w) (a * h) (b * w)) as [px py].
  cbn [fst snd] in *. apply in_prod; apply in_seq; lia.
Qed.

(** The number of landmarks is the number of tiles: of the [r * c] cells
    of the returned matrix, exactly [tiles r h * tiles c w] are set. *)
Theorem landmarks_count (S : matrix F) (r c h w : nat) :
  shape S r c -> (0 < h)%nat -> (0 < w)%nat ->
  feq (of_int 1) (of_int 1) = true -> feq (of_int 0) (of_int 1) = false ->
  exists fp,
    landmarks S (Z.of_nat h) (Z.of_nat w) = Ok fp /\
    count_set fp r c = (tiles r h * tiles c w)%nat.
Proof.
  intros Hs Hh Hw Hone Hzero.
  destruct (landmarks_cells S r c h w Hs Hh Hw) as (fp & Hrun & _ & Hcells).
  exists fp. split; [exact Hrun|]. unfold count_set.
  assert (Hext : forall p, In p (list_prod (seq 0 r) (seq 0 c)) ->
            is_set fp p = is_marked (marked S r c h w) (fst p) (snd p)).
  { intros [x y] Hp. apply in_prod_iff in Hp. destruct Hp as [Hx Hy].
    apply in_seq in Hx, Hy. cbn [fst snd]. unfold is_set. cbn [fst snd].
    rewrite (Hcells x y) by lia.
    rewrite (is_marked_peak S r c h w x y Hs Hh Hw) by lia.
    destruct (is_peak S h w x y); assumption. }
  rewrite (filter_ext_in _ _ _ Hext).
  rewrite filter_marked_length.
  - unfold marked. now rewrite length_map, length_prod, !length_seq.
  - apply list_prod_NoDup; apply seq_NoDup.
  - now apply marked_NoDup.
  - now apply marked_in_range.
Qed.

End LandmarkEdges.

(** ** Further properties of the filterbank *)

(** A loop that meets an exception at [mid] after an invariant carried it
    there raises that exception. *)
Lemma for_each_range_raise {St : Type} (P : Z -> St -> Prop) body e :
  forall (n : nat) lo mid hi s,
    Z.to_nat (mid - lo) = n ->
    lo <= mid < hi ->
    P lo s ->
    (forall x s, lo <= x < mid -> P x s ->
                 exists s', body x s = Ok s' /\ P (x + 1) s') ->
    (forall s, P mid s -> body mid s = Raise e) ->
    for_each (range lo hi) body s = Raise e.
Proof.
  induction n as [|n IH]; intros lo mid hi s Hn Hle HP Hstep Hraise.
  - assert (lo = mid) by lia. subst lo.
    rewrite range_cons by lia. cbn [for_each]. now rewrite Hraise.
  - rewrite range_cons by lia. cbn [for_each].
    destruct (Hstep lo s ltac:(lia) HP) as (s1 & -> & HP1). cbn [bind].
    apply (IH (lo + 1) mid hi s1); try lia; auto.
    intros x s2 Hx. apply Hstep. lia.
Qed.

Section FilterbankEdges.
Context {F : Type} `{Scalar F}.
Variable np : NumPy F.

Lemma fbank_band_shape bin (r c i : nat) low center high (fbank : matrix F) :
  band_ok np bin c (Z.of_nat i + 1) (low, center, high) ->
  (i < r)%nat -> shape fbank r c ->
  exists fbank', fbank_band np bin (Z.of_nat i + 1) fbank = Ok fbank' /\
                 shape fbank' r c.
Proof.
  intros (Hedges & Hlow & Hhigh & Hpow) Hi Hshape.
  rewrite fbank_band_edges, Hedges. cbn [bind].
  replace (Z.of_nat i + 1 - 1) with (Z.of_nat i) by lia.
  destruct (for_each_range_max (fun _ fb => shape fb r c)
    (fun k fb => w <- filter_weight np (center - k) k ;;
                 set2 fb (Z.of_nat i) k w) low high fbank Hshape)
    as (fb & Hrun & Hs); [|eauto].
  intros x fb Hx Hs. specialize (Hpow x Hx).
  destruct (filter_weight np (center - x) x) as [w|]; [|discriminate].
  cbn [bind].
  assert (Hxk : exists xk, x = Z.of_nat xk) by (exists (Z.to_nat x); lia).
  destruct Hxk as [xk ->].
  destruct (set2_nat fb r c i xk w Hs Hi ltac:(lia)) as (fb' & Hset & Hs' & _).
  eauto.
Qed.



End FilterbankEdges.

(** ** Further properties of the band-energy extractor *)

Section ExtractorEdges.
Context {F : Type} `{Scalar F}.
Variable np : NumPy F.
Variable lib : Preprocessing F.

(** Sizes below one are refused with [ValueError] once framing has
    returned: [fft_points < 1] by the FFT, [n_bands < 1] by [np.linspace]
    or by one of the two [np.zeros] (negative dimension). *)
Theorem extractFBE_invalid_sizes (util_frame : framing F)
  (samples : list F) (sr : F) (normalize : bool) (fft_points n_bands : Z)
  (low_freq high_freq : F) (overlapping : pynum F) (window_length : Z)
  (window_type : String.string) (display : bool) (frames : matrix F) :
  enframe lib util_frame samples sr normalize overlapping window_length
    = Ok frames ->
  fft_points < 1 \/ n_bands < 1 ->
  extractFBEFingerprinting np lib util_frame samples sr normalize fft_points
    n_bands low_freq high_freq overlapping window_length window_type display
  = Raise ValueError.
Proof.
  intros Hframes Hbad. unfold extractFBEFingerprinting.
  rewrite Hframes. cbn [bind].
  destruct (Z.lt_ge_cases fft_points 1) as [Hfft|Hfft].
  { unfold power_spectrum. destruct (Z.ltb_spec fft_points 1); [reflexivity|lia]. }
  destruct Hbad as [Hbad|Hbands]; [lia|].
  destruct (power_spectrum_shape np fft_points frames ltac:(lia))
    as (power & -> & Hp).
  cbn [bind].
  destruct (Z.lt_ge_cases (n_bands + 2) 0) as [Hneg|Hpos].
  { unfold bin_points, np_linspace.
    destruct (Z.ltb_spec (n_bands + 2) 0); [reflexivity|lia]. }
  destruct (bin_points_length np fft_points n_bands low_freq high_freq sr Hpos)
    as (bin & -> & _).
  cbn [bind]. unfold build_fbank, np_zeros2.
  destruct (Z.ltb_spec n_bands 0) as [Hlt|Hge]; [reflexivity|].
  assert (n_bands = 0) by lia. subst n_bands.
  assert (0 <= fft_points / 2) by (apply Z.div_pos; lia).
  destruct (Z.ltb_spec (fft_points / 2 + 1) 0); [lia|]. cbn [orb bind].
  rewrite range_nil by lia. cbn [Z.to_nat repeat for_each bind].
  destruct (band_energy_shape np power [] (length frames) 0
              (Z.to_nat (fft_points / 2 + 1)) Hp)
    as (energy & -> & _).
  { split; [reflexivity|constructor]. }
  cbn [bind]. unfold bit_derivation, np_zeros2.
  destruct (Z.ltb_spec (0 - 1) 0); [|lia].
  now rewrite orb_true_r.
Qed.

(** The energy matrix has one row per frame and one column per band: for
    [fft_points >= 1] and a filterbank over [fft_points // 2 + 1] bins, lines
    37-39 and 68-72 return it without raising. *)
Theorem energy_matrix_shape (fft_points : Z) (frames fbank : matrix F)
  (n_bands : nat) :
  1 <= fft_points ->
  shape fbank n_bands (Z.to_nat (fft_points / 2 + 1)) ->
  exists power energy,
    power_spectrum np fft_points frames = Ok power /\
    band_energy np power fbank = Ok energy /\
    shape energy (length frames) n_bands.
Proof.
  intros Hfft Hf.
  destruct (power_spectrum_shape np fft_points frames Hfft) as (power & Hp & Hs).
  destruct (band_energy_shape np power fbank _ _ _ Hs Hf) as (energy & He & Hse).
  eauto.
Qed.

(** Framing with an integer overlap: when the hop [(1 - overlapping) *
    window_length] is at least 1 and the waveform holds a frame, there are
    [1 + (N - window_length) // hop] frames and each has [window_length]
    samples. *)
Theorem enframe_frames (samples : list F) (sr : F) (normalize : bool)
  (o window_length : Z) :
  length (preprocess lib samples sr normalize) = length samples ->
  0 <= window_length <= len samples ->
  1 <= (1 - o) * window_length ->
  exists frames,
    enframe lib librosa_util_frame samples sr normalize (PyInt o) window_length
      = Ok frames /\
    len frames = 1 + (len samples - window_length) / ((1 - o) * window_length) /\
    Forall (fun fr => len fr = window_length) frames.
Proof.
  intros Hpre HL Hhop. unfold enframe, librosa_util_frame, hop_length.
  set (x := preprocess lib samples sr normalize) in *.
  set (h := (1 - o) * window_length) in *.
  assert (Hx : len x = len samples) by (unfold len; now rewrite Hpre).
  rewrite Hx.
  destruct (Z.ltb_spec (len samples) window_length); [lia|].
  destruct (Z.ltb_spec h 1); [lia|].
  destruct (Z.ltb_spec window_length 0); [lia|].
  eexists. split; [reflexivity|].
  assert (Hq : 0 <= (len samples - window_length) / h)
    by (apply Z.div_pos; lia).
  split.
  - unfold len at 1. rewrite length_map, range_length. lia.
  - apply Forall_map, Forall_forall. intros t Ht. apply range_In in Ht.
    assert (Hth : t * h <= len samples - window_length).
    { assert (t <= (len samples - window_length) / h) by lia.
      pose proof (Z.mul_div_le (len samples - window_length) h ltac:(lia)).
      nia. }
    replace (t * h) with (Z.of_nat (Z.to_nat (t * h))) by nia.
    replace window_length with (Z.of_nat (Z.to_nat window_length)) at 1 by lia.
    unfold len at 1. rewrite slice_length. unfold len in *. nia.
Qed.

End ExtractorEdges.

(** ** NaN magnitudes *)

Section NanFacts.
Context {F : Type} `{Scalar F}.

Lemma nan_unordered_spec (l : list F) :
  nan_unordered l = true ->
  forall x y, In x l -> In y l -> is_nan x = true -> fle x y = false.
Proof.
  unfold nan_unordered. rewrite forallb_forall. intros Hl x y Hx Hy Hnan.
  specialize (Hl x Hx). rewrite forallb_forall in Hl. specialize (Hl y Hy).
  rewrite Hnan in Hl. cbn [implb] in Hl. now apply negb_true_iff in Hl.
Qed.

Lemma argmax_scan_first_nan (l : list F) (k0 : nat) (v : F) :
  (forall x y, In x l -> In y l -> is_nan x = true -> fle x y = false) ->
  nth_error l k0 = Some v -> is_nan v = true ->
  (forall k u, (k < k0)%nat -> nth_error l k = Some u -> is_nan u = false) ->
  forall (rest : list F) (mp : F) (best i : nat),
    In mp l -> skipn i l = rest -> (i <= k0)%nat ->
    argmax_scan mp best i rest = k0.
Proof.
  intros Hun Hk0 Hv Hbefore.
  induction rest as [|x rest IH]; intros mp best i Hmp Hskip Hi.
  - assert (Hlen : (length l <= i)%nat).
    { rewrite <- (firstn_skipn i l), Hskip, app_nil_r. apply firstn_le_length. }
    assert (k0 < length l)%nat by (apply nth_error_Some; congruence). lia.
  - assert (Hx : nth_error l i = Some x).
    { rewrite <- (Nat.add_0_r i), <- nth_error_skipn, Hskip. reflexivity. }
    assert (Hskip' : skipn (Datatypes.S i) l = rest).
    { replace (Datatypes.S i) with (1 + i)%nat by lia.
      rewrite <- skipn_skipn, Hskip. reflexivity. }
    assert (Hinx : In x l) by (eapply nth_error_In; eauto).
    cbn [argmax_scan]. destruct (Nat.eq_dec i k0) as [->|Hne].
    + assert (x = v) by congruence. subst x.
      rewrite (Hun v mp Hinx Hmp Hv), Hv. reflexivity.
    + rewrite (Hbefore i x ltac:(lia) Hx).
      destruct (fle x mp); apply IH; auto; lia.
Qed.

Lemma argmax_nat_first_nan (l : list F) (k0 : nat) (v : F) :
  (forall x y, In x l -> In y l -> is_nan x = true -> fle x y = false) ->
  nth_error l k0 = Some v -> is_nan v = true ->
  (forall k u, (k < k0)%nat -> nth_error l k = Some u -> is_nan u = false) ->
  argmax_nat l = k0.
Proof.
  intros Hun Hk0 Hv Hbefore. destruct l as [|x r]; [now destruct k0|].
  unfold argmax_nat. destruct k0 as [|k0].
  - cbn in Hk0. inversion Hk0; subst. now rewrite Hv.
  - rewrite (Hbefore 0%nat x ltac:(lia) eq_refl).
    apply (argmax_scan_first_nan (x :: r) (Datatypes.S k0) v Hun Hk0 Hv Hbefore);
      [now left|reflexivity|lia].
Qed.

(** A NaN takes the landmark: in a tile that holds a NaN, the cell marked
    is the first NaN in row-major order, whatever the other magnitudes. *)
Theorem landmarks_first_nan (S : matrix F) (r c h w a b x0 y0 : nat) :
  shape S r c -> (0 < h)%nat -> (0 < w)%nat ->
  nan_unordered (concat S) = true ->
  in_tile r c h w (a * h) (b * w) x0 y0 ->
  is_nan (at2 S x0 y0) = true ->
  (forall x y, in_tile r c h w (a * h) (b * w) x y -> before x y x0 y0 ->
               is_nan (at2 S x y) = false) ->
  exists fp,
    landmarks S (Z.of_nat h) (Z.of_nat w) = Ok fp /\
    forall x y, in_tile r c h w (a * h) (b * w) x y ->
      cell fp x y =
      Some (if Nat.eqb x x0 && Nat.eqb y y0 then of_int 1 else of_int 0).
Proof.
  intros Hs Hh Hw Hun Hin0 Hnan Hbefore.
  pose proof (nan_unordered_spec _ Hun) as Hun'.
  destruct (landmarks_cells S r c h w Hs Hh Hw) as (fp & Hrun & _ & Hcells).
  exists fp. split; [exact Hrun|].
  set (i := (a * h)%nat) in *. set (j := (b * w)%nat) in *.
  assert (Hi : (i < r)%nat) by (destruct Hin0; lia).
  assert (Hj : (j < c)%nat) by (destruct Hin0; lia).
  pose proof (tile_shape S r c h w i j Hs) as Ht.
  set (rt := Nat.min h (r - i)) in *. set (ct := Nat.min w (c - j)) in *.
  set (T := tile S (Z.of_nat h) (Z.of_nat w) (Z.of_nat i) (Z.of_nat j)) in *.
  assert (Hct : (0 < ct)%nat) by (unfold ct; lia).
  assert (Hhd : length (hd [] T) = ct).
  { destruct Ht as [Hr Hc]. destruct T as [|row T'];
      [cbn in Hr; unfold rt in Hr; lia|]. now inversion Hc. }
  assert (Hflat : forall k, (k / ct < rt)%nat ->
            nth_error (concat T) k = cell S (i + k / ct) (j + k mod ct)).
  { intros k Hk. rewrite (concat_nth T rt ct k Ht Hct). unfold T.
    apply tile_cell.
    - unfold rt in Hk. lia.
    - pose proof (Nat.mod_upper_bound k ct ltac:(lia)). unfold ct in *. lia. }
  set (k0 := ((x0 - i) * ct + (y0 - j))%nat).
  assert (Hy0 : (y0 - j < ct)%nat) by (destruct Hin0; unfold ct; lia).
  assert (Hx0 : (x0 - i < rt)%nat) by (destruct Hin0; unfold rt; lia).
  assert (Hk0d : (k0 / ct = x0 - i)%nat).
  { unfold k0. rewrite Nat.div_add_l, Nat.div_small by lia. lia. }
  assert (Hk0m : (k0 mod ct = y0 - j)%nat).
  { unfold k0. rewrite Nat.add_comm, Nat.Div0.mod_add. now apply Nat.mod_small. }
  destruct (shape_cell S r c x0 y0 Hs ltac:(destruct Hin0; lia)
              ltac:(destruct Hin0; lia)) as (v & Hv).
  assert (Hpeak : argmax_nat (concat T) = k0).
  { apply (argmax_nat_first_nan (concat T) k0 v).
    - intros x y Hx Hy.
      apply Hun';
        apply (tile_incl S (Z.of_nat h) (Z.of_nat w) (Z.of_nat i) (Z.of_nat j));
        assumption.
    - rewrite Hflat by lia. rewrite Hk0d, Hk0m.
      replace (i + (x0 - i))%nat with x0 by (destruct Hin0; lia).
      replace (j + (y0 - j))%nat with y0 by (destruct Hin0; lia). exact Hv.
    - now rewrite <- (cell_at2 _ _ _ _ Hv).
    - intros k u Hk Hu.
      pose proof (Nat.div_mod_eq k ct) as Hdm.
      pose proof (Nat.mod_upper_bound k ct ltac:(lia)) as Hmod.
      assert (Hkd : (k / ct <= x0 - i)%nat).
      { destruct (Nat.le_gt_cases (k / ct) (x0 - i)); [assumption|].
        unfold k0 in Hk. nia. }
      rewrite Hflat in Hu by lia.
      rewrite <- (cell_at2 _ _ _ _ Hu). apply Hbefore.
      + destruct Hin0 as [Hxin Hyin]. unfold in_tile, rt, ct in *. lia.
      + unfold before. destruct (Nat.eq_dec (k / ct) (x0 - i)) as [Heq|Hneq].
        * right. destruct Hin0. unfold k0 in Hk. split; [lia|nia].
        * left. destruct Hin0. lia. }
  intros x y [Hx Hy]. rewrite (Hcells x y) by lia.
  rewrite (is_peak_tile S h w a b) by (apply div_tile; lia).
  fold i j. unfold peak. fold T. rewrite Hhd, Hpeak, Hk0d, Hk0m.
  cbn [fst snd].
  replace (i + (x0 - i))%nat with x0 by (destruct Hin0; lia).
  replace (j + (y0 - j))%nat with y0 by (destruct Hin0; lia). reflexivity.
Qed.

End NanFacts.

(** ** Instances of the further properties *)

Lemma magnitudes_nan_shape : shape magnitudes_nan 2 3.
Proof. split; [reflexivity|]. repeat constructor. Qed.

Lemma landmarks_total_witness :
  exists fp,
    landmarks magnitudes_nan (Z.of_nat 2) (Z.of_nat 2) = Ok fp /\
    shape fp 2 3 /\
    forall x y, (x < 2)%nat -> (y < 3)%nat ->
      exists v, cell fp x y = Some v /\ is_bit v.
Proof.
  apply (landmarks_total magnitudes_nan 2 3 2 2);
    [apply magnitudes_nan_shape|lia|lia].
Defined.

Lemma landmarks_zero_step_witness :
  landmarks magnitudes_a 2 0 = Raise ValueError.
Proof.
  apply (landmarks_zero_step magnitudes_a 2 0).
  right. split; [lia|]. split; [reflexivity|discriminate].
Defined.

Lemma landmarks_negative_step_witness :
  landmarks magnitudes_a 2 (-2) = Ok (map (map (fun _ => of_int 0)) magnitudes_a).
Proof.
  apply (landmarks_negative_step magnitudes_a 2 (-2)). right. lia.
Defined.

Lemma landmarks_count_witness :
  exists fp,
    landmarks magnitudes_a (Z.of_nat 2) (Z.of_nat 2) = Ok fp /\
    count_set fp 3 5 = (tiles 3 2 * tiles 5 2)%nat.
Proof.
  apply (landmarks_count magnitudes_a 3 5 2 2);
    [apply magnitudes_a_shape|lia|lia|reflexivity|reflexivity].
Defined.

Lemma landmarks_first_nan_witness :
  exists fp,
    landmarks magnitudes_nan (Z.of_nat 2) (Z.of_nat 2) = Ok fp /\
    forall x y, in_tile 2 3 2 2 (0 * 2) (0 * 2) x y ->
      cell fp x y =
      Some (if Nat.eqb x 0 && Nat.eqb y 1 then of_int 1 else of_int 0).
Proof.
  apply (landmarks_first_nan magnitudes_nan 2 3 2 2 0 0 0 1);
    [apply magnitudes_nan_shape|lia|lia|vm_compute; reflexivity
    |unfold in_tile; cbn; lia|vm_compute; reflexivity|].
  intros x y [Hx Hy] Hb. unfold before in Hb. cbn in Hx, Hy.
  assert (x = 0%nat /\ y = 0%nat) as [-> ->] by lia.
  vm_compute. reflexivity.
Defined.




Lemma extractFBE_invalid_sizes_witness :
  extractFBEFingerprinting Ref.numpy Ref.preprocessing librosa_util_frame
    Ref.wave (of_int 8) false 8 0 (of_int 1) (of_int 3) (PyInt 0) 4
    String.EmptyString false = Raise ValueError.
Proof.
  apply (extractFBE_invalid_sizes Ref.numpy Ref.preprocessing librosa_util_frame
           Ref.wave (of_int 8) false 8 0 (of_int 1) (of_int 3) (PyInt 0) 4
           String.EmptyString false wave_frames);
    [vm_compute; reflexivity|right; lia].
Defined.

Lemma energy_matrix_shape_witness :
  exists power energy,
    power_spectrum Ref.numpy 8 wave_frames = Ok power /\
    band_energy Ref.numpy power (repeat (repeat (of_int 1) 5) 3) = Ok energy /\
    shape energy (length wave_frames) 3.
Proof.
  apply (energy_matrix_shape Ref.numpy 8 wave_frames
           (repeat (repeat (of_int 1) 5) 3) 3); [lia|].
  split; [reflexivity|]. repeat constructor.
Defined.

Lemma enframe_frames_witness :
  exists frames,
    enframe Ref.preprocessing librosa_util_frame Ref.wave (of_int 8) true
      (PyInt 0) 4 = Ok frames /\
    len frames = 1 + (len Ref.wave - 4) / ((1 - 0) * 4) /\
    Forall (fun fr => len fr = 4) frames.
Proof.
  apply (enframe_frames Ref.preprocessing Ref.wave (of_int 8) true 0 4);
    [reflexivity|vm_compute; split; discriminate|lia].
Defined.

(** ** The clip of line 43 in the reals *)

(** Line 43 never clips a realistic band edge: for every
    [0 <= high_freq <= 25 * sr] the upper Bark bound is [bark(high_freq)],
    also when [high_freq] is above the Nyquist frequency [sr / 2]. *)
Theorem high_bark_never_clips (high_freq sr : R) :
  (0 <= high_freq)%R -> (high_freq <= 25 * sr)%R ->
  high_bark arcsinh high_freq sr = bark arcsinh high_freq.
Proof.
  intros Hpos Hle. unfold high_bark, py_min.
  cbn [flt fdiv of_int R_scalar].
  destruct (Rlt_dec (sr / 2) (bark arcsinh high_freq)) as [Hlt|]; [|reflexivity].
  exfalso. unfold bark in Hlt. cbn [fmul fdiv of_int R_scalar] in Hlt.
  destruct (Req_dec high_freq 0) as [->|Hne].
  - replace (0 / 600)%R with 0%R in Hlt by field. rewrite arcsinh_0 in Hlt. lra.
  - assert (arcsinh (high_freq / 600) <= high_freq / 300)%R
      by (apply arcsinh_upper; lra).
    lra.
Qed.

Lemma high_bark_never_clips_witness :
  high_bark arcsinh 20000%R 16000%R = bark arcsinh 20000%R.
Proof. apply high_bark_never_clips; lra. Defined.

(** ** The fingerprints and the data they are read from *)

Section Composition.
Context {F : Type} `{Scalar F}.
Variable np : NumPy F.
Variable lib : Preprocessing F.

(** The band-energy fingerprint is the bit rule applied to the energy
    matrix of the same call: row 0 is zero and cell [(i, j)] of a later row
    is the bit of frames [i - 1], [i] and bands [j - 1] (wrapped), [j],
    [j + 1]. *)
Theorem extractFBE_bits (util_frame : framing F)
  (samples : list F) (sr : F) (normalize : bool) (fft_points : Z)
  (n_bands : nat) (low_freq high_freq : F) (overlapping : pynum F)
  (window_length : Z) (window_type : String.string) (display : bool)
  (frames : matrix F) (bin : list F) (n_bins : nat)
  (edges : Z -> Z * Z * Z) :
  enframe lib util_frame samples sr normalize overlapping window_length
    = Ok frames ->
  1 <= fft_points -> (1 <= n_bands)%nat ->
  fft_points / 2 + 1 = Z.of_nat n_bins ->
  bin_points np fft_points (Z.of_nat n_bands) low_freq high_freq sr = Ok bin ->
  (forall m, 1 <= m <= Z.of_nat n_bands -> band_ok np bin n_bins m (edges m)) ->
  exists power fbank energy fp,
    power_spectrum np fft_points frames = Ok power /\
    build_fbank np fft_points (Z.of_nat n_bands) bin = Ok fbank /\
    band_energy np power fbank = Ok energy /\
    extractFBEFingerprinting np lib util_frame samples sr normalize fft_points
      (Z.of_nat n_bands) low_freq high_freq overlapping window_length
      window_type display = Ok fp /\
    forall i j, (i < length frames)%nat -> (j < n_bands - 1)%nat ->
      cell fp i j =
      Some (if Nat.eqb i 0 then of_int 0
            else rule_bit energy i j (prev_col n_bands j)).
Proof.
  intros Hframes Hfft Hb Hbins Hbin Hok.
  unfold extractFBEFingerprinting. rewrite Hframes. cbn [bind].
  destruct (power_spectrum_shape np fft_points frames Hfft) as (power & Hpow & Hp).
  destruct (build_fbank_rows np fft_points bin n_bands n_bins edges Hbins Hok)
    as (fbank & Hfb & Hf & _).
  rewrite Hbins, Nat2Z.id in Hp.
  destruct (band_energy_shape np power fbank _ _ _ Hp Hf) as (energy & Hen & He).
  destruct (bit_derivation_cells energy (length frames) n_bands He Hb)
    as (fp & Hrun & _ & Hcells).
  exists power, fbank, energy, fp.
  rewrite Hpow. cbn [bind]. rewrite Hbin. cbn [bind]. rewrite Hfb. cbn [bind].
  rewrite Hen. cbn [bind]. repeat (split; [reflexivity || assumption|]).
  exact Hcells.
Qed.

End Composition.

Lemma extractFBE_bits_witness :
  exists power fbank energy fp,
    power_spectrum Ref.numpy 8 wave_frames = Ok power /\
    build_fbank Ref.numpy 8 (Z.of_nat 3) wave_bin = Ok fbank /\
    band_energy Ref.numpy power fbank = Ok energy /\
    extractFBEFingerprinting Ref.numpy Ref.preprocessing librosa_util_frame
      Ref.wave (of_int 8) false 8 (Z.of_nat 3) (of_int 1) (of_int 3) (PyInt 0)
      4 String.EmptyString false = Ok fp /\
    forall i j, (i < length wave_frames)%nat -> (j < 3 - 1)%nat ->
      cell fp i j =
      Some (if Nat.eqb i 0 then of_int 0
            else rule_bit energy i j (prev_col 3 j)).
Proof.
  apply (extractFBE_bits Ref.numpy Ref.preprocessing librosa_util_frame
           Ref.wave (of_int 8) false 8 3 (of_int 1) (of_int 3) (PyInt 0) 4
           String.EmptyString false wave_frames wave_bin 5 wave_edges);
    [vm_compute; reflexivity|lia|lia|reflexivity|vm_compute; reflexivity
    |apply wave_bin_ok].
Defined.

(** ** Landmarks depend on the order of the magnitudes only *)

Lemma for_each_ext {St : Type} (body body' : Z -> St -> result St) xs s :
  (forall x s', body x s' = body' x s') ->
  for_each xs body s = for_each xs body' s.
Proof.
  intros Hext. revert s. induction xs as [|x xs IH]; intros s; [reflexivity|].
  cbn [for_each]. rewrite Hext. destruct (body' x s); cbn [bind]; auto.
Qed.

Lemma slice_map {A B} (g : A -> B) (l : list A) lo hi :
  slice (map g l) lo hi = map g (slice l lo hi).
Proof. unfold slice. now rewrite skipn_map, firstn_map. Qed.

Section OrderInvariance.
Context {F : Type} `{Scalar F}.

Lemma same_order_spec (g : F -> F) (l : list F) :
  same_order g l = true ->
  (forall x, In x l -> is_nan (g x) = is_nan x) /\
  (forall x y, In x l -> In y l -> fle (g x) (g y) = fle x y).
Proof.
  unfold same_order. rewrite andb_true_iff, !forallb_forall.
  intros [Hnan Hle]. split.
  - intros x Hx. unfold is_nan. f_equal. apply eqb_prop. now apply Hnan.
  - intros x y Hx Hy. specialize (Hle x Hx). rewrite forallb_forall in Hle.
    apply eqb_prop. now apply Hle.
Qed.

Lemma argmax_scan_map (g : F -> F) (l : list F) :
  (forall x, In x l -> is_nan (g x) = is_nan x) ->
  (forall x y, In x l -> In y l -> fle (g x) (g y) = fle x y) ->
  forall rest mp best i,
    incl rest l -> In mp l ->
    argmax_scan (g mp) best i (map g rest) = argmax_scan mp best i rest.
Proof.
  intros Hnan Hle.
  induction rest as [|x rest IH]; intros mp best i Hincl Hmp; [reflexivity|].
  assert (Hx : In x l) by (apply Hincl; now left).
  assert (Hrest : incl rest l) by (intros y Hy; apply Hincl; now right).
  cbn [map argmax_scan]. rewrite (Hle x mp Hx Hmp), (Hnan x Hx).
  destruct (fle x mp); [now apply IH|].
  destruct (is_nan x); [reflexivity|now apply IH].
Qed.

Lemma np_argmax_map (g : F -> F) (l l' : list F) :
  (forall x, In x l -> is_nan (g x) = is_nan x) ->
  (forall x y, In x l -> In y l -> fle (g x) (g y) = fle x y) ->
  incl l' l ->
  np_argmax (map g l') = np_argmax l'.
Proof.
  intros Hnan Hle Hincl. destruct l' as [|x r]; [reflexivity|].
  assert (Hx : In x l) by (apply Hincl; now left).
  cbn [map np_argmax]. rewrite (Hnan x Hx).
  destruct (is_nan x); [reflexivity|].
  rewrite (argmax_scan_map g l Hnan Hle r x 0 1); auto.
  intros y Hy. apply Hincl. now right.
Qed.

Lemma tile_map (g : F -> F) (S : matrix F) h w i j :
  tile (map (map g) S) h w i j = map (map g) (tile S h w i j).
Proof.
  unfold tile. rewrite slice_map, !map_map. apply map_ext. intros row.
  apply slice_map.
Qed.

(** A transformation of the magnitudes that keeps their order (a positive
    gain, a logarithm) does not change the landmarks. *)
Theorem landmarks_order_invariant (g : F -> F) (S : matrix F)
  (height width : Z) :
  same_order g (concat S) = true ->
  landmarks (map (map g) S) height width = landmarks S height width.
Proof.
  intros Hsame. destruct (same_order_spec g _ Hsame) as [Hnan Hle].
  unfold landmarks. rewrite !map_map.
  assert (Hzero : map (fun row : list F => map (fun _ => of_int 0 : F) (map g row)) S
                  = map (map (fun _ => of_int 0)) S).
  { apply map_ext. intros row. now rewrite map_map. }
  rewrite Hzero. unfold len. rewrite length_map.
  destruct (range_step (Z.of_nat (length S)) height) as [rows|]; cbn [bind];
    [|reflexivity].
  apply for_each_ext. intros i fp.
  destruct S as [|row0 S']; [reflexivity|].
  change (np_get (map (map g) (row0 :: S')) 0)
    with (Ok (map g row0) : result (list F)).
  change (np_get (row0 :: S') 0) with (Ok row0 : result (list F)).
  cbn [bind]. rewrite length_map.
  destruct (range_step (Z.of_nat (length row0)) width) as [cols|]; cbn [bind];
    [|reflexivity].
  apply for_each_ext. intros j fp'. unfold mark_tile.
  rewrite tile_map, <- concat_map.
  rewrite (np_argmax_map g (concat (row0 :: S')) _ Hnan Hle)
    by apply tile_incl.
  destruct (np_argmax (concat (tile (row0 :: S') height width i j)));
    cbn [bind]; [|reflexivity].
  destruct (tile (row0 :: S') height width i j) as [|sub0 T]; [reflexivity|].
  change (np_get (map (map g) (sub0 :: T)) 0)
    with (Ok (map g sub0) : result (list F)).
  change (np_get (sub0 :: T) 0) with (Ok sub0 : result (list F)).
  cbn [bind]. unfold len. now rewrite length_map.
Qed.

End OrderInvariance.

Lemma landmarks_order_invariant_witness :
  landmarks (map (map (fun x => PrimFloat.mul 2 x)) magnitudes_nan) 2 2 =
  landmarks magnitudes_nan 2 2.
Proof.
  apply (landmarks_order_invariant (fun x => PrimFloat.mul 2 x) magnitudes_nan).
  vm_compute. reflexivity.
Defined.

(** ** The landmark extractor as a whole *)

Section LandmarkExtractor.
Context {F : Type} `{Scalar F}.
Variable np : NumPy F.
Variable lib : Preprocessing F.

(** The call of line 115 does not bind: [sr] takes the place of [n_fft],
    which the keyword [n_fft=] then names again, and [window_type] is not
    a parameter of [librosa.stft]. *)
Lemma stft_call_type_error (stft : transform F) (samples : list F) (sr : F)
  (fft_points window_length : Z) (hop : pynum F) (window_type : String.string) :
  stft_call stft samples sr fft_points window_length hop window_type
  = Raise TypeError.
Proof. reflexivity. Qed.

(** C4: on every input the landmark extractor raises [TypeError] at the
    STFT call of line 115 and returns no matrix; the tile loop of lines
    118-127 is never reached. *)
Theorem extractLandmarks_type_error (stft : transform F)
  (samples : list F) (sr : F) (normalize : bool) (height width fft_points : Z)
  (overlapping : pynum F) (window_length : Z) (window_type : String.string)
  (display : bool) :
  extractLandmarksFingerprinting np lib stft samples sr normalize height width
    fft_points overlapping window_length window_type display
  = Raise TypeError.
Proof.
  unfold extractLandmarksFingerprinting.
  now rewrite stft_call_type_error.
Qed.

End LandmarkExtractor.

(** ** The defaults at a sample rate of 4000 *)


(** ** Overflow of a weight *)

Section FilterbankOverflow.
Context {F : Type} `{Scalar F}.
Variable np : NumPy F.

Lemma filter_weight_raise delta k :
  is_ok (filter_weight np delta k) = false ->
  filter_weight np delta k = Raise OverflowError.
Proof.
  rewrite filter_weight_cases. unfold py_pow.
  repeat match goal with
         | |- context [if ?b then _ else _] => destruct b
         end; cbn [is_ok]; intros; congruence.
Qed.

(** When the power of a weight overflows at a bin of some band (the earlier
    bands and the earlier bins of that band being fine), the construction
    of the filterbank raises [OverflowError]. *)
Theorem build_fbank_overflow_error (fft_points : Z) (bin : list F)
  (n_bands n_bins : nat) (edges : Z -> Z * Z * Z) (m low center high k0 : Z) :
  fft_points / 2 + 1 = Z.of_nat n_bins ->
  (forall m', 1 <= m' < m -> band_ok np bin n_bins m' (edges m')) ->
  1 <= m <= Z.of_nat n_bands ->
  band_edges bin m = Ok (low, center, high) ->
  0 <= low -> low <= k0 < high -> k0 < Z.of_nat n_bins ->
  (forall k, low <= k < k0 ->
             is_ok (filter_weight np (center - k) k) = true) ->
  is_ok (filter_weight np (center - k0) k0) = false ->
  build_fbank np fft_points (Z.of_nat n_bands) bin = Raise OverflowError.
Proof.
  intros Hc Hok Hm Hedges Hlow Hk0 Hin Hpow Hover.
  unfold build_fbank, np_zeros2. rewrite Hc.
  destruct (Z.ltb_spec (Z.of_nat n_bands) 0); [lia|].
  destruct (Z.ltb_spec (Z.of_nat n_bins) 0); [lia|]. cbn [orb bind].
  rewrite !Nat2Z.id.
  apply (for_each_range_raise (fun _ fb => shape fb n_bands n_bins)
           (fbank_band np bin) OverflowError (Z.to_nat (m - 1)) 1 m);
    [reflexivity|lia|apply zeros_shape| |].
  - intros x fb Hx Hs.
    assert (Hxi : exists i, x = Z.of_nat i + 1) by (exists (Z.to_nat (x - 1)); lia).
    destruct Hxi as [i ->].
    pose proof (Hok (Z.of_nat i + 1) ltac:(lia)) as Hband.
    destruct (edges (Z.of_nat i + 1)) as [[l c0] h0].
    apply (fbank_band_shape np bin n_bands n_bins i l c0 h0 fb Hband);
      [lia|exact Hs].
  - intros fb Hs. rewrite fbank_band_edges, Hedges. cbn [bind].
    apply (for_each_range_raise (fun _ fb => shape fb n_bands n_bins)
             _ OverflowError (Z.to_nat (k0 - low)) low k0);
      [reflexivity|lia|exact Hs| |].
    + intros x fb1 Hx Hs1. specialize (Hpow x ltac:(lia)).
      destruct (filter_weight np (center - x) x) as [w|]; [|discriminate].
      cbn [bind].
      assert (Hxk : exists xk, x = Z.of_nat xk) by (exists (Z.to_nat x); lia).
      destruct Hxk as [xk ->].
      replace (m - 1) with (Z.of_nat (Z.to_nat (m - 1))) by lia.
      destruct (set2_nat fb1 n_bands n_bins (Z.to_nat (m - 1)) xk w Hs1
                  ltac:(lia) ltac:(lia)) as (fb' & Hset & Hs' & _).
      eauto.
    + intros fb1 Hs1. now rewrite (filter_weight_raise _ _ Hover).
Qed.

End FilterbankOverflow.

Lemma build_fbank_overflow_error_witness :
  build_fbank Ref.numpy 512 (Z.of_nat 1)
    [float_of_int 122; float_of_int 122; float_of_int 124]
  = Raise OverflowError.
Proof.
  apply (build_fbank_overflow_error Ref.numpy 512
           [float_of_int 122; float_of_int 122; float_of_int 124] 1 257
           (fun _ => (122, 122, 124)) 1 122 122 124 123);
    [reflexivity|intros m' Hm'; lia|lia|vm_compute; reflexivity|lia|lia|lia
    | |vm_compute; reflexivity].
  intros k Hk. assert (k = 122) as -> by lia. vm_compute. reflexivity.
Defined.
